(** * Tiler: splitting the world into rectangular tiles

    A shallow embedding of the [Tiler] class of id-sdk
    (src/unnamed/part_000) and the properties its specification states
    for it.

    ** Numbers

    Every value the class computes with is a JavaScript [number].  The
    embedding keeps the shape of that type -- finite values, the two
    infinities and NaN -- and evaluates the four arithmetic operations
    exactly, on rationals: the rounding of binary64 arithmetic, overflow to
    an infinity and the sign of zero are not modelled.  [Math.log] and
    [Math.pow], whose results ECMAScript leaves "implementation
    approximated", keep their specified special cases; their approximated
    results come from two functions the development is parametric in
    ([ln_approx], [pow_approx]), except that a power with an integer
    exponent is computed exactly.

    Sums, differences and products of integers are the same in both
    arithmetics as long as operands and result stay below [2^53] in
    magnitude ([safe_integer]); from there on binary64 rounds.  The
    properties that turn on the value of such a sum -- the length and the
    elements of a [range], the last tile index [2^z - 1], the square
    around Null Island -- are stated within that bound: for tile indices
    it means zooms up to 53.  Where a property fails beyond it, module
    [Binary64] runs the same source on binary64 numbers themselves. *)

From Stdlib Require Import ZArith QArith Qround Qreduction Qpower Qabs.
From Stdlib Require Import List String Ascii Bool Lia Permutation.
From Stdlib Require Import DecimalString Lqa.
From Stdlib Require Floats DecimalZ DecimalPos.
Import ListNotations.

Set Implicit Arguments.

Local Open Scope Z_scope.

(** ** The [number] type *)

Inductive number : Type :=
| Fin (q : Q)
| PInf
| NInf
| NaN.

Definition of_Z (n : Z) : number := Fin (inject_Z n).

(** Sign of a rational, as a [comparison] with zero. *)
Definition Qsign (q : Q) : comparison := (Qnum q ?= 0)%Z.

Definition is_nan (a : number) : bool :=
  match a with NaN => true | _ => false end.

(** [a + b] *)
Definition num_add (a b : number) : number :=
  match a, b with
  | NaN, _ | _, NaN => NaN
  | Fin x, Fin y => Fin (Qred (x + y))
  | PInf, NInf | NInf, PInf => NaN
  | PInf, _ | _, PInf => PInf
  | NInf, _ | _, NInf => NInf
  end.

(** [a - b] *)
Definition num_sub (a b : number) : number :=
  match a, b with
  | NaN, _ | _, NaN => NaN
  | Fin x, Fin y => Fin (Qred (x - y))
  | PInf, PInf | NInf, NInf => NaN
  | PInf, _ | _, NInf => PInf
  | NInf, _ | _, PInf => NInf
  end.

Definition inf_of_sign (c : comparison) : number :=
  match c with Gt => PInf | Lt => NInf | Eq => NaN end.

(** [a * b] *)
Definition num_mul (a b : number) : number :=
  match a, b with
  | NaN, _ | _, NaN => NaN
  | Fin x, Fin y => Fin (Qred (x * y))
  | Fin x, PInf | PInf, Fin x => inf_of_sign (Qsign x)
  | Fin x, NInf | NInf, Fin x => inf_of_sign (CompOpp (Qsign x))
  | PInf, PInf | NInf, NInf => PInf
  | PInf, NInf | NInf, PInf => NInf
  end.

(** [a / b].  A finite value over zero is an infinity of the sign of the
    numerator (the zero is taken positive), and [0 / 0] is NaN. *)
Definition num_div (a b : number) : number :=
  match a, b with
  | NaN, _ | _, NaN => NaN
  | Fin x, Fin y =>
      match Qsign y with
      | Eq => inf_of_sign (Qsign x)
      | _ => Fin (Qred (x / y))
      end
  | Fin _, PInf | Fin _, NInf => Fin 0
  | PInf, Fin y => match Qsign y with Lt => NInf | _ => PInf end
  | NInf, Fin y => match Qsign y with Lt => PInf | _ => NInf end
  | _, _ => NaN
  end.

(** Comparisons; every comparison with NaN is false. *)
Definition num_le (a b : number) : bool :=
  match a, b with
  | NaN, _ | _, NaN => false
  | Fin x, Fin y => Qle_bool x y
  | NInf, _ | _, PInf => true
  | _, _ => false
  end.

Definition num_lt (a b : number) : bool :=
  match a, b with
  | NaN, _ | _, NaN => false
  | Fin x, Fin y => negb (Qle_bool y x)
  | PInf, _ | _, NInf => false
  | _, _ => true
  end.

Definition num_ge (a b : number) : bool := num_le b a.
Definition num_gt (a b : number) : bool := num_lt b a.

Declare Scope num_scope.
Delimit Scope num_scope with num.
Bind Scope num_scope with number.
Infix "+" := num_add : num_scope.
Infix "-" := num_sub : num_scope.
Infix "*" := num_mul : num_scope.
Infix "/" := num_div : num_scope.
Infix "<=?" := num_le : num_scope.
Infix "<?" := num_lt : num_scope.
Infix ">=?" := num_ge : num_scope.
Infix ">?" := num_gt : num_scope.

(** ** The [Math] object *)

(** [Math.max(a, b)]: NaN if either argument is. *)
Definition Math_max (a b : number) : number :=
  if is_nan a || is_nan b then NaN
  else if (a <? b)%num then b else a.

(** [Math.min(a, b)]: NaN if either argument is. *)
Definition Math_min (a b : number) : number :=
  if is_nan a || is_nan b then NaN
  else if (b <? a)%num then b else a.

(** [Math.floor(a)] *)
Definition Math_floor (a : number) : number :=
  match a with
  | Fin x => of_Z (Qfloor x)
  | _ => a
  end.

(** [Math.round(a)]: the nearest integer, a tie going up: [floor(a + 1/2)]. *)
Definition Math_round (a : number) : number :=
  match a with
  | Fin x => of_Z (Qfloor (x + (1 # 2)))
  | _ => a
  end.

(** [Math.PI] and [Math.LOG2E]: the binary64 constants, as the rationals
    they are. *)
Definition Math_PI : number := Fin (884279719003555 # 281474976710656).
Definition Math_LOG2E : number := Fin (3248660424278399 # 2251799813685248).

(** Whether a rational is an integer, and which. *)
Definition Qis_int (q : Q) : bool := (Zpos (Qden (Qred q)) =? 1)%Z.

Section Libm.

(** The approximated results of [Math.log] on a positive finite argument
    other than 1, and of [Math.pow] on finite arguments with a exponent
    that is not an integer. *)
Variable ln_approx : Q -> Q.
Variable pow_approx : Q -> Q -> Q.

(** [Math.log(a)] *)
Definition Math_log (a : number) : number :=
  match a with
  | NaN | NInf => NaN
  | PInf => PInf
  | Fin x =>
      match Qsign x with
      | Lt => NaN
      | Eq => NInf
      | Gt => if Qeq_bool x 1 then Fin 0 else Fin (Qred (ln_approx x))
      end
  end.

(** [Math.pow(b, e)], after Number::exponentiate. *)
Definition Math_pow (b e : number) : number :=
  match e with
  | NaN => NaN
  | Fin y =>
      if Qeq_bool y 0 then Fin 1
      else
        match b with
        | NaN => NaN
        | PInf => match Qsign y with Gt => PInf | _ => Fin 0 end
        | NInf =>
            match Qsign y with
            | Gt => if Qis_int y && Z.odd (Qfloor y) then NInf else PInf
            | _ => Fin 0
            end
        | Fin x =>
            match Qsign x with
            | Eq => match Qsign y with Gt => Fin 0 | _ => PInf end
            | Lt =>
                if Qis_int y then Fin (Qred (x ^ Qfloor y)) else NaN
            | Gt =>
                if Qis_int y then Fin (Qred (x ^ Qfloor y))
                else Fin (Qred (pow_approx x y))
            end
        end
  | PInf =>
      match b with
      | NaN => NaN
      | PInf | NInf => PInf
      | Fin x =>
          match (Qabs x ?= 1)%Q with
          | Gt => PInf
          | Eq => NaN
          | Lt => Fin 0
          end
      end
  | NInf =>
      match b with
      | NaN => NaN
      | PInf | NInf => Fin 0
      | Fin x =>
          match (Qabs x ?= 1)%Q with
          | Gt => Fin 0
          | Eq => NaN
          | Lt => PInf
          end
      end
  end.

End Libm.

(** ** Arrays, strings and exceptions *)

Inductive exn : Type := RangeError.

Inductive result (A : Type) : Type :=
| Ok (a : A)
| Throw (e : exn).
Arguments Throw {A} e.

Definition result_bind {A B} (r : result A) (f : A -> result B) : result B :=
  match r with
  | Ok a => f a
  | Throw e => Throw e
  end.

(** [Array(len)]: an array of [len] holes; a RangeError unless [len] is an
    integer in [[0, 2^32 - 1]].  Only the length matters to the callers. *)
Definition Array_new (len : number) : result nat :=
  match len with
  | Fin q =>
      if Qis_int q && (0 <=? Qfloor q) && (Qfloor q <? 2 ^ 32)
      then Ok (Z.to_nat (Qfloor q))
      else Throw RangeError
  | _ => Throw RangeError
  end.

(** [Array.from(a.keys())] for an array of length [n]: [0 .. n-1]. *)
Definition Array_keys (n : nat) : list number :=
  map (fun v => of_Z (Z.of_nat v)) (seq 0 n).

Definition Z_toString (n : Z) : string :=
  NilZero.string_of_int (Z.to_int n).

(** [Number.prototype.toString].  Integers below [10^21] in magnitude,
    the infinities and NaN print as in JavaScript.  The digits of any
    other number are those of its binary64 value, which the exact model
    does not have: such a value prints as numerator/denominator here, and
    no property below speaks of its rendering. *)
Definition number_toString (a : number) : string :=
  match a with
  | NaN => "NaN"
  | PInf => "Infinity"
  | NInf => "-Infinity"
  | Fin q =>
      let r := Qred q in
      if (Zpos (Qden r) =? 1)%Z then Z_toString (Qnum r)
      else (Z_toString (Qnum r) ++ "/" ++ Z_toString (Zpos (Qden r)))%string
  end.

Definition Vec2 : Type := number * number.
Definition Vec3 : Type := number * number * number.

(** [Array.prototype.toString] on a triple: the elements joined by commas. *)
Definition Vec3_toString (v : Vec3) : string :=
  let '(x, y, z) := v in
  (number_toString x ++ "," ++ number_toString y ++ ","
     ++ number_toString z)%string.

(** ** Collaborators: Extent and Projection *)

Record Extent : Type := mkExtent { ext_min : Vec2; ext_max : Vec2 }.

(** Modelled from the spec: the [Extent] class (./extent) is not among the
    sources.  The constructor takes two corner points in either order and
    stores them normalised, minimum first, component-wise. *)
Definition new_Extent (a b : Vec2) : Extent :=
  {| ext_min := (Math_min (fst a) (fst b), Math_min (snd a) (snd b));
     ext_max := (Math_max (fst a) (fst b), Math_max (snd a) (snd b)) |}.

(** Modelled from the spec: [Extent.intersects] (./extent) is not among the
    sources.  Two extents intersect iff their projections overlap or touch
    on both axes. *)
Definition intersects (this other : Extent) : bool :=
  (fst (ext_min other) <=? fst (ext_max this))%num
  && (snd (ext_min other) <=? snd (ext_max this))%num
  && (fst (ext_max other) >=? fst (ext_min this))%num
  && (snd (ext_max other) >=? snd (ext_min this))%num.

(** Modelled from the spec: the [Projection] class (./projection) is not
    among the sources.  It holds a translation, a scale factor and the
    viewport's pixel dimensions (minimum and maximum corner). *)
Record Projection : Type := mkProjection {
  translate : Vec2;
  scale : number;
  dimensions : Vec2 * Vec2
}.

(** [new Projection(x, y, k)]; the viewport is empty until it is set. *)
Definition new_Projection (x y k : number) : Projection :=
  {| translate := (x, y); scale := k;
     dimensions := ((of_Z 0, of_Z 0), (of_Z 0, of_Z 0)) |}.

(** [projection.dimensions([min, max])], the setter. *)
Definition set_dimensions (d : Vec2 * Vec2) (p : Projection) : Projection :=
  {| translate := translate p; scale := scale p; dimensions := d |}.

(** ** Tiles and the Tiler's state *)

Record Tile : Type := mkTile {
  id : string;
  xyz : Vec3;
  pxExtent : Extent;
  wgs84Extent : Extent;
  isVisible : bool
}.

Record TileResult : Type := mkTileResult { tiles : list Tile }.

Record Tiler : Type := mkTiler {
  _tileSize : number;
  _zoomRange : Vec2;
  _margin : number;
  _skipNullIsland : bool
}.

(** [new Tiler()]: 256px tiles, zooms 0 to 24, no margin, Null Island kept. *)
Definition new_Tiler : Tiler :=
  {| _tileSize := of_Z 256;
     _zoomRange := (of_Z 0, of_Z 24);
     _margin := of_Z 0;
     _skipNullIsland := false |}.

(** Methods run in a state and exception monad over the receiver: a method
    returns its outcome and the [Tiler] it leaves behind. *)
Definition M (A : Type) : Type := Tiler -> result A * Tiler.

Definition ret {A} (a : A) : M A := fun this => (Ok a, this).

Definition bind {A B} (m : M A) (f : A -> M B) : M B :=
  fun this =>
    match m this with
    | (Ok a, this') => f a this'
    | (Throw e, this') => (Throw e, this')
    end.

Definition get_this : M Tiler := fun this => (Ok this, this).
Definition put_this (t : Tiler) : M unit := fun _ => (Ok tt, t).
Definition lift {A} (r : result A) : M A := fun this => (r, this).

Declare Scope tiler_scope.
Delimit Scope tiler_scope with tiler.
Notation "x <- m ;; k" := (bind m (fun x => k))
  (at level 61, m at next level, right associativity) : tiler_scope.
Notation "m ;;; k" := (bind m (fun _ => k))
  (at level 61, right associativity) : tiler_scope.

(** What a get-or-set accessor returns: the value read, or [this] for
    chaining after a write. *)
Inductive accessed (A : Type) : Type :=
| Value (a : A)
| This.
Arguments This {A}.

(** ** Helpers of the module *)

Definition clamp (num min max : number) : number :=
  Math_max min (Math_min num max).

Definition range (start end_ : number) : result (list number) :=
  result_bind (Array_new (of_Z 1 + end_ - start)%num)
    (fun n => Ok (map (fun v => (start + v)%num) (Array_keys n))).

(** ** The Tiler class *)

Section Tiler.

Variable ln_approx : Q -> Q.
Variable pow_approx : Q -> Q -> Q.

(** [geoScaleToZoom] and [geoZoomToScale] (./geo) and [Projection.invert]
    (./projection) are not among the sources; the class is verified for
    any implementation of them. *)
Variable geoScaleToZoom : number -> number -> number.
Variable geoZoomToScale : number -> number -> number.
Variable Projection_invert : Projection -> Vec2 -> Vec2.

Local Open Scope num_scope.

(** [Tiler.isNearNullIsland(x, y, z)] *)
Definition isNearNullIsland (x y z : number) : bool :=
  if z >=? of_Z 7 then
    let center := Math_pow pow_approx (of_Z 2) (z - of_Z 1) in
    let width := Math_pow pow_approx (of_Z 2) (z - of_Z 6) in
    let min := center - width / of_Z 2 in
    let max := center + width / of_Z 2 - of_Z 1 in
    (x >=? min) && (x <=? max) && (y >=? min) && (y <=? max)
  else false.

(** *** The locals of [getTiles], in the order the method binds them *)

Definition getTiles_zFrac (this : Tiler) (projection : Projection) : number :=
  geoScaleToZoom (scale projection) (_tileSize this).

Definition getTiles_z (this : Tiler) (projection : Projection) : number :=
  clamp (Math_round (getTiles_zFrac this projection))
    (fst (_zoomRange this)) (snd (_zoomRange this)).

Definition getTiles_minTile : number := of_Z 0.

Definition getTiles_maxTile (this : Tiler) (projection : Projection)
  : number :=
  Math_pow pow_approx (of_Z 2) (getTiles_z this projection) - of_Z 1.

Definition getTiles_log2ts (this : Tiler) : number :=
  Math_log ln_approx (_tileSize this) * Math_LOG2E.

Definition getTiles_k (this : Tiler) (projection : Projection) : number :=
  Math_pow pow_approx (of_Z 2)
    (getTiles_zFrac this projection - getTiles_z this projection
     + getTiles_log2ts this).

Definition getTiles_origin (projection : Projection) : Vec2 :=
  (scale projection * Math_PI - fst (translate projection),
   scale projection * Math_PI - snd (translate projection)).

Definition getTiles_viewMin (projection : Projection) : Vec2 :=
  (fst (getTiles_origin projection) + fst (fst (dimensions projection)),
   snd (getTiles_origin projection) + snd (fst (dimensions projection))).

Definition getTiles_viewMax (projection : Projection) : Vec2 :=
  (fst (getTiles_origin projection) + fst (snd (dimensions projection)),
   snd (getTiles_origin projection) + snd (snd (dimensions projection))).

Definition getTiles_viewExtent (projection : Projection) : Extent :=
  new_Extent (getTiles_viewMin projection) (getTiles_viewMax projection).

Definition getTiles_worldProjection (this : Tiler) (projection : Projection)
  : Projection :=
  let z := getTiles_z this projection in
  let worldOrigin :=
    Math_pow pow_approx (of_Z 2) z / of_Z 2 * _tileSize this in
  let worldScale := geoZoomToScale z (_tileSize this) in
  new_Projection worldOrigin worldOrigin worldScale.

Definition getTiles_cols (this : Tiler) (projection : Projection)
  : result (list number) :=
  let k := getTiles_k this projection in
  let minTile := getTiles_minTile in
  let maxTile := getTiles_maxTile this projection in
  range
    (clamp (Math_floor (fst (getTiles_viewMin projection) / k)
            - _margin this) minTile maxTile)
    (clamp (Math_floor (fst (getTiles_viewMax projection) / k)
            + _margin this) minTile maxTile).

Definition getTiles_rows (this : Tiler) (projection : Projection)
  : result (list number) :=
  let k := getTiles_k this projection in
  let minTile := getTiles_minTile in
  let maxTile := getTiles_maxTile this projection in
  range
    (clamp (Math_floor (snd (getTiles_viewMin projection) / k)
            - _margin this) minTile maxTile)
    (clamp (Math_floor (snd (getTiles_viewMax projection) / k)
            + _margin this) minTile maxTile).

(** The tile descriptor built in the loop body for column [x], row [y]. *)
Definition getTiles_tile (this : Tiler) (projection : Projection)
  (x y : number) : Tile :=
  let z := getTiles_z this projection in
  let xyz := (x, y, z) in
  let tileMin := (x * _tileSize this, y * _tileSize this) in
  let tileMax :=
    ((x + of_Z 1) * _tileSize this, (y + of_Z 1) * _tileSize this) in
  let tileExtent := new_Extent tileMin tileMax in
  let isVisible := intersects (getTiles_viewExtent projection) tileExtent in
  let worldProjection := getTiles_worldProjection this projection in
  let wgs84Min :=
    Projection_invert worldProjection (fst tileMin, snd tileMax) in
  let wgs84Max :=
    Projection_invert worldProjection (fst tileMax, snd tileMin) in
  {| id := Vec3_toString xyz;
     xyz := xyz;
     pxExtent := new_Extent tileMin tileMax;
     wgs84Extent := new_Extent wgs84Min wgs84Max;
     isVisible := isVisible |}.

(** One pass of the inner loop body, on the array [tiles] built so far. *)
Definition getTiles_visit (this : Tiler) (projection : Projection)
  (y x : number) (tiles : list Tile) : list Tile :=
  if _skipNullIsland this
     && isNearNullIsland x y (getTiles_z this projection)
  then tiles
  else
    let tile := getTiles_tile this projection x y in
    if isVisible tile
    then tile :: tiles          (* unshift: tiles in view at beginning *)
    else tiles ++ [tile].       (* push: tiles in margin at the end *)

(** The two nested [for] loops, rows outside and columns inside. *)
Definition getTiles_loop (this : Tiler) (projection : Projection)
  (rows cols : list number) : list Tile :=
  fold_left
    (fun tiles y =>
       fold_left (fun tiles x => getTiles_visit this projection y x tiles)
         cols tiles)
    rows [].

Local Open Scope tiler_scope.

(** [getTiles(projection)].  The method reads the fields of the receiver
    and assigns none; the receiver is read once, on entry.  The columns are
    computed before the rows, so an exception of the first [range] comes
    first. *)
Definition getTiles (projection : Projection) : M TileResult :=
  this <- get_this ;;
  cols <- lift (getTiles_cols this projection) ;;
  rows <- lift (getTiles_rows this projection) ;;
  ret {| tiles := getTiles_loop this projection rows cols |}.

(** *** Accessors

    Each accessor reads its field when called without an argument
    ([undefined], here [None]) and otherwise writes it and returns [this].
    In [margin], [+val] is [val] itself for a number. *)

Definition tileSize (val : option number) : M (accessed number) :=
  match val with
  | None => this <- get_this ;; ret (Value (_tileSize this))
  | Some val =>
      this <- get_this ;;
      put_this {| _tileSize := val;
                  _zoomRange := _zoomRange this;
                  _margin := _margin this;
                  _skipNullIsland := _skipNullIsland this |} ;;;
      ret This
  end.

Definition zoomRange (min max : option number) : M (accessed Vec2) :=
  match min with
  | None => this <- get_this ;; ret (Value (_zoomRange this))
  | Some min =>
      let max := match max with None => min | Some max => max end in
      this <- get_this ;;
      put_this {| _tileSize := _tileSize this;
                  _zoomRange := (min, max);
                  _margin := _margin this;
                  _skipNullIsland := _skipNullIsland this |} ;;;
      ret This
  end.

Definition margin (val : option number) : M (accessed number) :=
  match val with
  | None => this <- get_this ;; ret (Value (_margin this))
  | Some val =>
      this <- get_this ;;
      put_this {| _tileSize := _tileSize this;
                  _zoomRange := _zoomRange this;
                  _margin := val;
                  _skipNullIsland := _skipNullIsland this |} ;;;
      ret This
  end.

Definition skipNullIsland (val : option bool) : M (accessed bool) :=
  match val with
  | None => this <- get_this ;; ret (Value (_skipNullIsland this))
  | Some val =>
      this <- get_this ;;
      put_this {| _tileSize := _tileSize this;
                  _zoomRange := _zoomRange this;
                  _margin := _margin this;
                  _skipNullIsland := val |} ;;;
      ret This
  end.

End Tiler.

(** ** A reference math library, for running the class

    The theorems below hold for every [ln_approx], [pow_approx],
    [geoScaleToZoom], [geoZoomToScale] and [Projection_invert].  To evaluate
    the class on concrete inputs this module fixes one choice of them: the
    base-2 logarithm and exponential interpolated linearly between
    consecutive powers of two (exact at the powers of two), and the zoom and
    scale conversions of the specification. *)

Module Reference.

Local Open Scope Q_scope.

(** [floor (log2 q)] for [q > 0]. *)
Definition Qlog2_floor (q : Q) : Z :=
  let e := (Z.log2 (Qnum q) - Z.log2 (Zpos (Qden q)))%Z in
  if Qle_bool (2 ^ e) q then e else (e - 1)%Z.

Definition log2_pl (q : Q) : Q :=
  let e := Qlog2_floor q in
  inject_Z e + (q / 2 ^ e - 1).

Definition exp2_pl (y : Q) : Q :=
  let e := Qfloor y in
  2 ^ e * (1 + (y - inject_Z e)).

Definition LOG2E : Q := 3248660424278399 # 2251799813685248.

Definition ln_approx (q : Q) : Q := log2_pl q / LOG2E.

Definition pow_approx (b e : Q) : Q := exp2_pl (e * log2_pl b).

Local Open Scope num_scope.

Definition TAU : number := of_Z 2 * Math_PI.

(** Modelled from the spec: [geoScaleToZoom] (./geo) is not among the
    sources; [zoom = log2(scale * 2 * pi / tileSize)]. *)
Definition geoScaleToZoom (k tileSize : number) : number :=
  Math_log ln_approx (k * TAU / tileSize) * Math_LOG2E.

(** Modelled from the spec: [geoZoomToScale] (./geo) is not among the
    sources; [scale = tileSize * 2^zoom / (2 * pi)]. *)
Definition geoZoomToScale (z tileSize : number) : number :=
  tileSize * Math_pow pow_approx (of_Z 2) z / TAU.

(** Modelled from the spec: [Projection.invert] (./projection) is not among
    the sources and the specification gives no formula for it; this is the
    inverse of the translation and scaling only, the y axis pointing up,
    without the latitude correction of the Mercator projection. *)
Definition Projection_invert (p : Projection) (point : Vec2) : Vec2 :=
  ((fst point - fst (translate p)) / scale p,
   (snd (translate p) - snd point) / scale p).

Definition isNearNullIsland : number -> number -> number -> bool :=
  isNearNullIsland pow_approx.

Definition getTiles : Projection -> M TileResult :=
  getTiles ln_approx pow_approx geoScaleToZoom geoZoomToScale
    Projection_invert.

End Reference.

(** ** The square around Null Island on binary64 numbers

    [isNearNullIsland] once more, from the same source lines, on the
    primitive binary64 numbers of Rocq: every operation rounds as the
    code's does.  It serves to run the function where the exact model
    above and the code part, from zoom 54 on. *)

Module Binary64.

Import PrimFloat.

(** The integer [n] as a binary64 number, for [|n| < 2^63] (rounded to
    nearest from [2^53] on). *)
Definition of_Z (n : Z) : float :=
  match n with
  | Z0 => zero
  | Zpos _ => of_uint63 (Uint63.of_Z n)
  | Zneg _ => opp (of_uint63 (Uint63.of_Z (- n)))
  end.

(** The integer a binary64 number is, when it is one. *)
Definition to_Z (f : float) : option Z :=
  match FloatOps.Prim2SF f with
  | SpecFloat.S754_zero _ => Some 0
  | SpecFloat.S754_finite s m e =>
      let n := if s then Zneg m else Zpos m in
      if 0 <=? e then Some (n * 2 ^ e)
      else if Zpos m mod 2 ^ (- e) =? 0 then Some (n / 2 ^ (- e))
      else None
  | _ => None
  end.

Section Libm.

(** The approximated results of [Math.pow]. *)
Variable pow_approx : float -> float -> float.

(** [Math.pow(b, e)]: as in the exact model, 2 to an integer exponent is
    the power of two itself, which binary64 holds exactly (or as a
    subnormal, 0 or Infinity beyond its exponent range). *)
Definition Math_pow (b e : float) : float :=
  match to_Z e with
  | Some n => if eqb b (of_Z 2) then FloatOps.Z.ldexp one n
              else pow_approx b e
  | None => pow_approx b e
  end.

Local Open Scope float_scope.

(** [Tiler.isNearNullIsland(x, y, z)]; [x >= min] is [min <= x], false when
    either side is NaN. *)
Definition isNearNullIsland (x y z : float) : bool :=
  if of_Z 7 <=? z then
    let center := Math_pow (of_Z 2) (z - of_Z 1) in
    let width := Math_pow (of_Z 2) (z - of_Z 6) in
    let min := center - width / of_Z 2 in
    let max := center + width / of_Z 2 - of_Z 1 in
    (min <=? x) && (x <=? max) && (min <=? y) && (y <=? max)
  else false.

End Libm.

End Binary64.

(** ** Vocabulary of the properties *)

(** The projections of the examples in the documentation of [getTiles],
    [new Projection(h, h, h / Math.PI).dimensions([[0, 0], [w, w]])] with
    [w = tileSize * 2^z] and [h = w / 2]: the whole world in view at zoom
    [z]. *)
Definition world_projection (tileSize z : Z) : Projection :=
  let w := of_Z (tileSize * 2 ^ z) in
  let h := (w / of_Z 2)%num in
  set_dimensions ((of_Z 0, of_Z 0), (w, w))
    (new_Projection h h (h / Math_PI)%num).

(** [Number.isSafeInteger(n)]: the integers binary64 represents exactly
    and without a neighbour within 1. *)
Definition safe_integer (n : Z) : Prop := - 2 ^ 53 < n < 2 ^ 53.

(** A string without a comma, as the digits of a number are. *)
Fixpoint comma_free (s : string) : bool :=
  match s with
  | EmptyString => true
  | String c s' => negb (Ascii.eqb c ",") && comma_free s'
  end.

(** A method that leaves the receiver as it found it. *)
Definition read_only {A} (m : M A) : Prop :=
  forall this, snd (m this) = this.

(** In a list of tiles, every visible one comes before every one that is
    not. *)
Definition visible_first (l : list Tile) : Prop :=
  forall i j ti tj,
    nth_error l i = Some ti -> nth_error l j = Some tj ->
    isVisible ti = true -> isVisible tj = false -> (i < j)%nat.

(** A list of numbers that goes up by one from [start]. *)
Definition ascending_from (start : number) (l : list number) : Prop :=
  forall i v, nth_error l i = Some v ->
              v = (start + of_Z (Z.of_nat i))%num.

Section Enumeration.

Variable ln_approx : Q -> Q.
Variable pow_approx : Q -> Q -> Q.
Variable geoScaleToZoom : number -> number -> number.
Variable geoZoomToScale : number -> number -> number.
Variable Projection_invert : Projection -> Vec2 -> Vec2.

(** The clamped lower and upper tile-index bounds of the columns and of
    the rows: the two arguments [getTiles] passes to [range]. *)
Definition getTiles_colBounds (this : Tiler) (projection : Projection)
  : number * number :=
  let k := getTiles_k ln_approx pow_approx geoScaleToZoom this projection in
  let maxTile :=
    getTiles_maxTile pow_approx geoScaleToZoom this projection in
  (clamp (Math_floor (fst (getTiles_viewMin projection) / k)
          - _margin this) getTiles_minTile maxTile,
   clamp (Math_floor (fst (getTiles_viewMax projection) / k)
          + _margin this) getTiles_minTile maxTile)%num.

Definition getTiles_rowBounds (this : Tiler) (projection : Projection)
  : number * number :=
  let k := getTiles_k ln_approx pow_approx geoScaleToZoom this projection in
  let maxTile :=
    getTiles_maxTile pow_approx geoScaleToZoom this projection in
  (clamp (Math_floor (snd (getTiles_viewMin projection) / k)
          - _margin this) getTiles_minTile maxTile,
   clamp (Math_floor (snd (getTiles_viewMax projection) / k)
          + _margin this) getTiles_minTile maxTile)%num.

(** Whether the loop body leaves out column [x] of row [y]. *)
Definition skipped (this : Tiler) (projection : Projection) (x y : number)
  : bool :=
  _skipNullIsland this
  && isNearNullIsland pow_approx x y
       (getTiles_z geoScaleToZoom this projection).

(** The tiles in enumeration order: row by row in the order of [rows],
    within a row in the order of [cols], the skipped ones left out. *)
Definition enumeration (this : Tiler) (projection : Projection)
  (rows cols : list number) : list Tile :=
  flat_map
    (fun y =>
       map (fun x =>
              getTiles_tile pow_approx geoScaleToZoom geoZoomToScale
                Projection_invert this projection x y)
         (filter (fun x => negb (skipped this projection x y)) cols))
    rows.

End Enumeration.

(** The values [Math.floor] and [Math.round] return, NaN apart: an integer
    or an infinity. *)
Inductive ext_int : number -> Prop :=
| ext_int_fin (n : Z) : ext_int (of_Z n)
| ext_int_pinf : ext_int PInf
| ext_int_ninf : ext_int NInf.

(** [clamp(v, 0, max)] as an integer, for [v] an integer or an infinity
    and [max] an integer. *)
Definition Zclamp (v : number) (max : Z) : Z :=
  match v with
  | Fin q => Z.max 0 (Z.min (Qfloor q) max)
  | PInf => Z.max 0 max
  | NInf | NaN => 0
  end.

(** The integers [start, start + 1, ...], [n] of them. *)
Fixpoint Zseq (start : Z) (n : nat) : list Z :=
  match n with
  | O => []
  | S n => start :: Zseq (start + 1) n
  end.

(** [max] stands for the largest tile index [maxTile] when clamping to
    [[0, maxTile]] gives the integer [Zclamp v max]; [max] is [-1] for a
    negative [maxTile]. *)
Definition tile_bound (maxTile : number) (max : Z) : Prop :=
  -1 <= max
  /\ forall v, ext_int v -> clamp v (of_Z 0) maxTile = of_Z (Zclamp v max).

(** ** Inputs of the examples *)

Module Examples.

(** The world at zoom 2 (1024px wide) with the pixels from (300, 300) to
    (600, 500) in view: columns 1 and 2 of row 1. *)
Definition partial_view : Projection :=
  set_dimensions ((of_Z 300, of_Z 300), (of_Z 600, of_Z 500))
    (world_projection 256 2).




(** A projection with a negative scale and an empty viewport. *)
Definition negative_scale : Projection :=
  new_Projection (of_Z 0) (of_Z 0) (of_Z (-1)).

(** The world at zoom 7 with the 4 by 4 tiles around Null Island in
    view. *)
Definition null_island_view : Projection :=
  set_dimensions ((of_Z 16000, of_Z 16000), (of_Z 16700, of_Z 16700))
    (world_projection 256 7).

(** [new Tiler().margin(m)] *)
Definition tiler_with_margin (m : Z) : Tiler :=
  snd (margin (Some (of_Z m)) new_Tiler).

(** [new Tiler().zoomRange(0, 1)] *)
Definition tiler_to_zoom_1 : Tiler :=
  snd (zoomRange (Some (of_Z 0)) (Some (of_Z 1)) new_Tiler).

(** [new Tiler().skipNullIsland(true)] *)
Definition tiler_skipping : Tiler :=
  snd (skipNullIsland (Some true) new_Tiler).

End Examples.

(** ** The debugging export of the Tiler class *)

(** The GeoJSON objects [getGeoJSON] builds.  The fields are named after
    the object they belong to, where JavaScript has [type], [id] and
    [name] in each. *)
Record Properties : Type := mkProperties {
  properties_id : string;
  properties_name : string
}.

Record Geometry : Type := mkGeometry {
  geometry_type : string;
  coordinates : list (list Vec2)
}.

Record Feature : Type := mkFeature {
  feature_type : string;
  properties : Properties;
  geometry : Geometry
}.

Record FeatureCollection : Type := mkFeatureCollection {
  collection_type : string;
  features : list Feature
}.

Section GeoJSON.

(** [Extent.polygon] (./extent) is not among the sources; the export is
    verified for any implementation of it. *)
Variable Extent_polygon : Extent -> list Vec2.

Local Open Scope tiler_scope.

(** [getGeoJSON(tileResult)] *)
Definition getGeoJSON (tileResult : TileResult) : M FeatureCollection :=
  let features :=
    map (fun tile =>
           {| feature_type := "Feature";
              properties := {| properties_id := id tile;
                               properties_name := id tile |};
              geometry :=
                {| geometry_type := "Polygon";
                   coordinates := [Extent_polygon (wgs84Extent tile)] |} |})
      (tiles tileResult) in
  ret {| collection_type := "FeatureCollection"; features := features |}.

End GeoJSON.

(** ** The vector module (packages/math/vector/src/vector.ts) *)

(** [a === b] on numbers: NaN equals nothing. *)
Definition num_eq (a b : number) : bool :=
  match a, b with
  | Fin x, Fin y => Qeq_bool x y
  | PInf, PInf | NInf, NInf => true
  | _, _ => false
  end.

(** Whether a number is truthy: every number but 0 and NaN. *)
Definition truthy (a : number) : bool :=
  match a with
  | Fin x => negb (Qeq_bool x 0)
  | NaN => false
  | PInf | NInf => true
  end.

(** [Math.abs(a)] *)
Definition Math_abs (a : number) : number :=
  match a with
  | Fin x => Fin (Qabs x)
  | PInf | NInf => PInf
  | NaN => NaN
  end.

Section Vector.

(** The approximated result of [Math.sqrt] on a positive finite argument. *)
Variable sqrt_approx : Q -> Q.

(** [Math.sqrt(a)] *)
Definition Math_sqrt (a : number) : number :=
  match a with
  | NaN | NInf => NaN
  | PInf => PInf
  | Fin x =>
      match Qsign x with
      | Lt => NaN
      | Eq => Fin 0
      | Gt => Fin (Qred (sqrt_approx x))
      end
  end.

Local Open Scope num_scope.

Definition vecEqual (a b : Vec2) (epsilon : option number) : bool :=
  match epsilon with
  | Some epsilon =>
      if truthy epsilon then
        (Math_abs (fst a - fst b) <=? epsilon)
        && (Math_abs (snd a - snd b) <=? epsilon)
      else num_eq (fst a) (fst b) && num_eq (snd a) (snd b)
  | None => num_eq (fst a) (fst b) && num_eq (snd a) (snd b)
  end.

Definition vecAdd (a b : Vec2) : Vec2 := (fst a + fst b, snd a + snd b).

Definition vecSubtract (a b : Vec2) : Vec2 := (fst a - fst b, snd a - snd b).

Definition vecScale (a : Vec2) (n : number) : Vec2 := (fst a * n, snd a * n).

Definition vecFloor (a : Vec2) : Vec2 :=
  (Math_floor (fst a), Math_floor (snd a)).

Definition vecInterp (a b : Vec2) (t : number) : Vec2 :=
  (fst a + (fst b - fst a) * t, snd a + (snd b - snd a) * t).

(** [b || [0, 0]]: an array is always truthy, so only a missing argument
    takes the default. *)
Definition or_origin (b : option Vec2) : Vec2 :=
  match b with
  | Some b => b
  | None => (of_Z 0, of_Z 0)
  end.

Definition vecLength (a : Vec2) (b : option Vec2) : number :=
  let b := or_origin b in
  let x := fst a - fst b in
  let y := snd a - snd b in
  Math_sqrt (x * x + y * y).

Definition vecNormalize (a : Vec2) : Vec2 :=
  let length := Math_sqrt (fst a * fst a + snd a * snd a) in
  if negb (num_eq length (of_Z 0)) then vecScale a (of_Z 1 / length)
  else (of_Z 0, of_Z 0).

Definition vecDot (a b : Vec2) (origin : option Vec2) : number :=
  let origin := or_origin origin in
  let p := vecSubtract a origin in
  let q := vecSubtract b origin in
  fst p * fst q + snd p * snd q.

Definition vecNormalizedDot (a b : Vec2) (origin : option Vec2) : number :=
  let origin := or_origin origin in
  let p := vecNormalize (vecSubtract a origin) in
  let q := vecNormalize (vecSubtract b origin) in
  vecDot p q None.

Definition vecCross (a b : Vec2) (origin : option Vec2) : number :=
  let origin := or_origin origin in
  let p := vecSubtract a origin in
  let q := vecSubtract b origin in
  fst p * snd q - snd p * fst q.

Record Edge : Type := mkEdge {
  index : nat;
  distance : number;
  target : Vec2
}.

(** The point of the segment from [o] to [n] that [vecProject] takes for
    [a]: the body of its loop up to the assignment of [p]. *)
Definition vecProject_point (a o n : Vec2) : Vec2 :=
  let s := vecSubtract n o in
  let v := vecSubtract a o in
  let proj := vecDot v s None / vecDot s s None in
  if proj <? of_Z 0 then o
  else if proj >? of_Z 1 then n
  else (fst o + proj * fst s, snd o + proj * snd s).

(** The locals [min], [idx] and [target] of [vecProject]; [idx] and
    [target] are undefined until a segment is taken. *)
Record vecProject_state : Type := mkProjectState {
  st_min : number;
  st_idx : option nat;
  st_target : option Vec2
}.

(** The rest of the loop body, for the segment from [points[i]] to
    [points[i + 1]]. *)
Definition vecProject_body (a o n : Vec2) (i : nat) (st : vecProject_state)
  : vecProject_state :=
  let p := vecProject_point a o n in
  let dist := vecLength p (Some a) in
  if dist <? st_min st
  then {| st_min := dist; st_idx := Some (i + 1)%nat; st_target := Some p |}
  else st.

(** The loop [for (i = 0; i < points.length - 1; i++)], entered at index
    [i] with [points] the array from [points[i]] on. *)
Fixpoint vecProject_loop (a : Vec2) (points : list Vec2) (i : nat)
  (st : vecProject_state) : vecProject_state :=
  match points with
  | o :: ((n :: _) as rest) =>
      vecProject_loop a rest (S i) (vecProject_body a o n i st)
  | _ => st
  end.

(** [vecProject(a, points)]; [None] is [null]. *)
Definition vecProject (a : Vec2) (points : list Vec2) : option Edge :=
  let st :=
    vecProject_loop a points 0
      {| st_min := PInf; st_idx := None; st_target := None |} in
  match st_idx st, st_target st with
  | Some idx, Some target =>
      Some {| index := idx; distance := st_min st; target := target |}
  | _, _ => None
  end.

End Vector.

(** *** Vocabulary of the properties of [vecProject] *)

Section Projecting.

Variable sqrt_approx : Q -> Q.

(** The distance [vecProject] computes for the segment from [o] to [n]:
    from [a] to the point it takes on the segment. *)
Definition vecProject_dist (a o n : Vec2) : number :=
  vecLength sqrt_approx (vecProject_point a o n) (Some a).

(** The locals describe a segment of [points] already visited, or none. *)
Definition projected (a : Vec2) (points : list Vec2) (i : nat)
  (st : vecProject_state) : Prop :=
  match st_idx st, st_target st with
  | None, None => st_min st = PInf
  | Some k, Some p =>
      (1 <= k <= i)%nat
      /\ exists o n,
           nth_error points (k - 1) = Some o
           /\ nth_error points k = Some n
           /\ p = vecProject_point a o n
           /\ st_min st = vecProject_dist a o n
           /\ (st_min st <? PInf)%num = true
  | _, _ => False
  end.

(** No segment before index [i] is nearer than [min], and none before the
    one taken is as near. *)
Definition nearest (a : Vec2) (points : list Vec2) (i : nat)
  (st : vecProject_state) : Prop :=
  forall j o n,
    (j < i)%nat ->
    nth_error points j = Some o -> nth_error points (S j) = Some n ->
    (vecProject_dist a o n <? st_min st)%num = false
    /\ (forall k, st_idx st = Some k -> (S j < k)%nat ->
                  (vecProject_dist a o n <=? st_min st)%num = false).

End Projecting.

(** ** Inputs of further examples *)

Module MoreExamples.

(** [new Tiler().zoomRange(2, 5)] *)
Definition tiler_from_zoom_2 : Tiler :=
  snd (zoomRange (Some (of_Z 2)) (Some (of_Z 5)) new_Tiler).

(** A square root for running the vector module: the integer square root
    of the argument scaled by [2^40], scaled back. *)
Definition sqrt_approx (q : Q) : Q :=
  (inject_Z (Z.sqrt (Qnum q * Zpos (Qden q) * 2 ^ 40))
   / (inject_Z (Zpos (Qden q)) * inject_Z (2 ^ 20)))%Q.

(** A path with a right angle, and a point as near to its first segment as
    to its second. *)
Definition corner_path : list Vec2 :=
  [(of_Z 0, of_Z 0); (of_Z 2, of_Z 0); (of_Z 2, of_Z 2)].

Definition corner_point : Vec2 := (of_Z 1, of_Z 1).

End MoreExamples.
(** * Properties *)

(** ** Arithmetic of [number] on integers *)

#[local] Arguments Qred : simpl never.
#[local] Arguments Qfloor : simpl never.
#[local] Arguments Qle_bool : simpl never.
#[local] Arguments Qeq_bool : simpl never.
#[local] Arguments Qpower : simpl never.
#[local] Arguments Qplus : simpl never.
#[local] Arguments Qminus : simpl never.
#[local] Arguments Qmult : simpl never.
#[local] Arguments Qdiv : simpl never.
#[local] Arguments inject_Z : simpl never.

Lemma Qred_inject_Z (n : Z) : Qred (inject_Z n) = inject_Z n.
Proof.
  unfold Qred, inject_Z; cbn.
  pose proof (Z.ggcd_gcd n 1) as Hg.
  pose proof (Z.ggcd_correct_divisors n 1) as Hd.
  destruct (Z.ggcd n 1) as [g [aa bb]]; simpl in *.
  rewrite Z.gcd_1_r in Hg; subst g.
  destruct Hd as [Ha Hb].
  assert (Ea : aa = n) by lia. assert (Eb : bb = 1) by lia.
  rewrite Ea, Eb. reflexivity.
Qed.

Lemma Qred_of_int (q : Q) (n : Z) : (q == inject_Z n)%Q -> Qred q = inject_Z n.
Proof.
  intros H. rewrite (Qred_complete _ _ H). apply Qred_inject_Z.
Qed.

Lemma of_Z_add (a b : Z) : (of_Z a + of_Z b)%num = of_Z (a + b).
Proof.
  unfold of_Z; simpl. f_equal. apply Qred_of_int.
  rewrite inject_Z_plus. reflexivity.
Qed.

Lemma of_Z_sub (a b : Z) : (of_Z a - of_Z b)%num = of_Z (a - b).
Proof.
  unfold of_Z; simpl. f_equal. apply Qred_of_int.
  unfold Z.sub. rewrite inject_Z_plus, inject_Z_opp. reflexivity.
Qed.


Lemma Qle_bool_inject_Z (a b : Z) :
  Qle_bool (inject_Z a) (inject_Z b) = (a <=? b)%Z.
Proof.
  unfold Qle_bool, inject_Z; cbn. rewrite !Z.mul_1_r. reflexivity.
Qed.

Lemma of_Z_le (a b : Z) : (of_Z a <=? of_Z b)%num = (a <=? b)%Z.
Proof. apply Qle_bool_inject_Z. Qed.

Lemma of_Z_lt (a b : Z) : (of_Z a <? of_Z b)%num = (a <? b)%Z.
Proof.
  unfold of_Z; simpl. rewrite Qle_bool_inject_Z.
  rewrite Z.ltb_antisym. reflexivity.
Qed.

Lemma Math_max_of_Z (a b : Z) : Math_max (of_Z a) (of_Z b) = of_Z (Z.max a b).
Proof.
  unfold Math_max. simpl is_nan. simpl orb. rewrite of_Z_lt.
  destruct (Z.ltb_spec a b); f_equal; lia.
Qed.

Lemma Math_min_of_Z (a b : Z) : Math_min (of_Z a) (of_Z b) = of_Z (Z.min a b).
Proof.
  unfold Math_min. simpl is_nan. simpl orb. rewrite of_Z_lt.
  destruct (Z.ltb_spec b a); f_equal; lia.
Qed.

Lemma Qsign_inject_Z (n : Z) : Qsign (inject_Z n) = (n ?= 0)%Z.
Proof. reflexivity. Qed.

Lemma Qis_int_inject_Z (n : Z) : Qis_int (inject_Z n) = true.
Proof. unfold Qis_int. rewrite Qred_inject_Z. reflexivity. Qed.

Lemma Qeq_bool_inject_Z (a b : Z) :
  Qeq_bool (inject_Z a) (inject_Z b) = (a =? b)%Z.
Proof.
  destruct (Z.eqb_spec a b) as [->|Hne].
  - apply Qeq_bool_iff. reflexivity.
  - apply not_true_is_false. intros H. apply Qeq_bool_iff in H.
    rewrite inject_Z_injective in H. contradiction.
Qed.

(** [Math.pow(2, n)] is the exact power for a non-negative integer [n]. *)
Lemma Math_pow_2_nonneg (pow_approx : Q -> Q -> Q) (n : Z) :
  0 <= n -> Math_pow pow_approx (of_Z 2) (of_Z n) = of_Z (2 ^ n).
Proof.
  intros Hn. unfold Math_pow, of_Z.
  change 0%Q with (inject_Z 0). rewrite Qeq_bool_inject_Z.
  destruct (Z.eqb_spec n 0) as [->|Hne]; [reflexivity|].
  rewrite Qsign_inject_Z. change (2 ?= 0)%Z with Gt. cbv iota.
  rewrite Qis_int_inject_Z, Qfloor_Z. f_equal.
  apply Qred_of_int. symmetry. apply Zpower_Qpower; assumption.
Qed.

(** [Math.pow(2, n)] for a negative integer [n] lies strictly between 0
    and 1. *)
Lemma Math_pow_2_neg (pow_approx : Q -> Q -> Q) (n : Z) :
  n < 0 ->
  exists q, Math_pow pow_approx (of_Z 2) (of_Z n) = Fin q /\ (0 < q < 1)%Q.
Proof.
  intros Hn. unfold Math_pow, of_Z.
  change 0%Q with (inject_Z 0). rewrite Qeq_bool_inject_Z.
  destruct (Z.eqb_spec n 0) as [->|Hne]; [lia|].
  rewrite Qsign_inject_Z. change (2 ?= 0)%Z with Gt. cbv iota.
  rewrite Qis_int_inject_Z, Qfloor_Z.
  eexists; split; [reflexivity|].
  rewrite Qred_correct. split.
  - apply Qpower_0_lt. reflexivity.
  - replace n with (- (- n)) by lia. rewrite Qpower_opp.
    assert (H1 : (1 < inject_Z 2 ^ (- n))%Q).
    { apply Qpower_1_lt; [reflexivity | lia]. }
    apply Qlt_shift_inv_r.
    + apply Qlt_trans with 1%Q; [reflexivity | exact H1].
    + rewrite Qmult_1_l. exact H1.
Qed.

Lemma of_Z_div_exact (a b : Z) :
  b <> 0 -> (of_Z (a * b) / of_Z b)%num = of_Z a.
Proof.
  intros Hb. unfold of_Z, num_div. rewrite Qsign_inject_Z.
  assert (Hq : ~ (inject_Z b == 0)%Q).
  { change 0%Q with (inject_Z 0). rewrite inject_Z_injective. exact Hb. }
  assert (E : Qred (inject_Z (a * b) / inject_Z b) = inject_Z a).
  { apply Qred_of_int. rewrite inject_Z_mult. field. exact Hq. }
  destruct (Z.compare_spec b 0); [contradiction | |]; rewrite E; reflexivity.
Qed.

Lemma num_lt_not_ge (a b : number) :
  (a <? b)%num = true -> (a >=? b)%num = false.
Proof.
  unfold num_ge. destruct a, b; simpl; try reflexivity; try discriminate.
  destruct (Qle_bool q0 q); [discriminate | reflexivity].
Qed.

(** ** Null Island *)

Section NullIsland.

Variable pow_approx : Q -> Q -> Q.

(** The bounds of the exclusion square at an integer zoom [z >= 7]. *)
Lemma isNearNullIsland_bounds (x y : number) (z : Z) :
  7 <= z ->
  isNearNullIsland pow_approx x y (of_Z z) =
    (x >=? of_Z (2 ^ (z - 1) - 2 ^ (z - 7)))%num
    && (x <=? of_Z (2 ^ (z - 1) + 2 ^ (z - 7) - 1))%num
    && (y >=? of_Z (2 ^ (z - 1) - 2 ^ (z - 7)))%num
    && (y <=? of_Z (2 ^ (z - 1) + 2 ^ (z - 7) - 1))%num.
Proof.
  intros Hz. unfold isNearNullIsland.
  unfold num_ge at 1. rewrite of_Z_le.
  replace (7 <=? z) with true by (symmetry; apply Z.leb_le; exact Hz).
  rewrite !of_Z_sub, !Math_pow_2_nonneg by lia.
  replace (2 ^ (z - 6)) with (2 ^ (z - 7) * 2)
    by (replace (z - 6) with (Z.succ (z - 7)) by lia;
        rewrite Z.pow_succ_r by lia; lia).
  rewrite of_Z_div_exact by lia.
  rewrite of_Z_sub, of_Z_add, of_Z_sub. reflexivity.
Qed.

(** C5, as the code has it.  [isNearNullIsland(x, y, z)] is false for
    every [x], [y] when [z < 7]; at an integer zoom [z] from 7 to 53 it is
    true iff [x] and [y] both lie in
    [[2^(z-1) - 2^(z-7), 2^(z-1) + 2^(z-7) - 1]]; so it is false everywhere
    at zoom 6, true at zoom 7 exactly for (63,63), (63,64), (64,63),
    (64,64), false for (63,65,7) and true for (127,127,8).  Up to zoom 53
    the two ends of the interval are below [2^53] and the code computes
    them exactly; from zoom 54 on it does not, see
    [isNearNullIsland_zoom_54]. *)
Theorem isNearNullIsland_spec :
  (forall x y z : number,
      (z <? of_Z 7)%num = true -> isNearNullIsland pow_approx x y z = false)
  /\ (forall (x y : Q) (z : Z),
         7 <= z <= 53 ->
         isNearNullIsland pow_approx (Fin x) (Fin y) (of_Z z) = true <->
         (inject_Z (2 ^ (z - 1) - 2 ^ (z - 7)) <= x
          /\ x <= inject_Z (2 ^ (z - 1) + 2 ^ (z - 7) - 1)
          /\ inject_Z (2 ^ (z - 1) - 2 ^ (z - 7)) <= y
          /\ y <= inject_Z (2 ^ (z - 1) + 2 ^ (z - 7) - 1))%Q)
  /\ (forall x y : number, isNearNullIsland pow_approx x y (of_Z 6) = false)
  /\ (forall x y : Z,
         isNearNullIsland pow_approx (of_Z x) (of_Z y) (of_Z 7) = true <->
         (x = 63 \/ x = 64) /\ (y = 63 \/ y = 64))
  /\ isNearNullIsland pow_approx (of_Z 63) (of_Z 65) (of_Z 7) = false
  /\ isNearNullIsland pow_approx (of_Z 127) (of_Z 127) (of_Z 8) = true.
Proof.
  split; [|split; [|split; [|split; [|split]]]].
  - intros x y z Hz. unfold isNearNullIsland.
    rewrite (num_lt_not_ge _ _ Hz). reflexivity.
  - intros x y z Hz. rewrite isNearNullIsland_bounds by apply Hz.
    unfold num_ge, num_le, of_Z.
    rewrite !andb_true_iff, !Qle_bool_iff. tauto.
  - intros x y. reflexivity.
  - intros x y. rewrite isNearNullIsland_bounds by lia.
    unfold num_ge. rewrite !of_Z_le.
    change (2 ^ (7 - 1) - 2 ^ (7 - 7)) with 63.
    change (2 ^ (7 - 1) + 2 ^ (7 - 7) - 1) with 64.
    rewrite !andb_true_iff, !Z.leb_le. lia.
  - reflexivity.
  - reflexivity.
Qed.

End NullIsland.

(** C5 as amended, where its first two parts apply: any tile of zoom 3,
    and the tile (127, 127) of zoom 8, within [[120, 135]]. *)
Lemma isNearNullIsland_witness :
  (of_Z 3 <? of_Z 7)%num = true
  /\ Reference.isNearNullIsland (of_Z 4) (of_Z 4) (of_Z 3) = false
  /\ 7 <= 8 <= 53
  /\ Reference.isNearNullIsland (of_Z 127) (of_Z 127) (of_Z 8) = true.
Proof.
  split; [reflexivity|]. split; [|split; [lia|]].
  - apply (proj1 (isNearNullIsland_spec Reference.pow_approx)). reflexivity.
  - apply (proj1 (proj2 (isNearNullIsland_spec Reference.pow_approx))
             127%Q 127%Q 8 ltac:(lia)).
    repeat split; discriminate.
Defined.

(** On binary64 numbers the code computes, at every integer zoom from 7 to
    53, the same two ends of the interval as the exact model: both are
    binary64 numbers, and the function compares [x] and [y] with them. *)
Lemma Binary64_isNearNullIsland_bounds
  (pow_approx : PrimFloat.float -> PrimFloat.float -> PrimFloat.float)
  (x y : PrimFloat.float) (z : Z) :
  7 <= z <= 53 ->
  Binary64.to_Z (Binary64.of_Z (2 ^ (z - 1) - 2 ^ (z - 7)))
  = Some (2 ^ (z - 1) - 2 ^ (z - 7))
  /\ Binary64.to_Z (Binary64.of_Z (2 ^ (z - 1) + 2 ^ (z - 7) - 1))
     = Some (2 ^ (z - 1) + 2 ^ (z - 7) - 1)
  /\ Binary64.isNearNullIsland pow_approx x y (Binary64.of_Z z)
     = PrimFloat.leb (Binary64.of_Z (2 ^ (z - 1) - 2 ^ (z - 7))) x
       && PrimFloat.leb x (Binary64.of_Z (2 ^ (z - 1) + 2 ^ (z - 7) - 1))
       && PrimFloat.leb (Binary64.of_Z (2 ^ (z - 1) - 2 ^ (z - 7))) y
       && PrimFloat.leb y (Binary64.of_Z (2 ^ (z - 1) + 2 ^ (z - 7) - 1)).
Proof.
  intros Hz.
  assert (H : In z (map Z.of_nat (seq 7 47))).
  { apply in_map_iff. exists (Z.to_nat z). split; [lia|]. apply in_seq. lia. }
  vm_compute in H.
  repeat (destruct H as [<-|H];
          [split; [|split]; vm_compute; reflexivity|]).
  destruct H.
Qed.

(** C5 as the specification has it fails from zoom 54 on.  There the upper
    end of the interval, [2^53 + 2^47 - 1], is not a binary64 number: the
    code's [center + width / 2 - 1] rounds to [2^53 + 2^47], and the tile
    of that index, one past the interval, is found near Null Island. *)
Lemma isNearNullIsland_zoom_54 :
  (forall pow_approx,
      Binary64.isNearNullIsland pow_approx
        (Binary64.of_Z (2 ^ 53 + 2 ^ 47)) (Binary64.of_Z (2 ^ 53 + 2 ^ 47))
        (Binary64.of_Z 54) = true)
  /\ Binary64.to_Z (Binary64.of_Z (2 ^ 53 + 2 ^ 47)) = Some (2 ^ 53 + 2 ^ 47)
  /\ ~ (2 ^ (54 - 1) - 2 ^ (54 - 7) <= 2 ^ 53 + 2 ^ 47
                                    <= 2 ^ (54 - 1) + 2 ^ (54 - 7) - 1).
Proof.
  split; [|split].
  - intros pow_approx. vm_compute. reflexivity.
  - vm_compute. reflexivity.
  - lia.
Qed.


(** ** Accessors *)

(** C9. Calling the [zoomRange] setter with a single value [min] sets both
    bounds to [min]: the setter returns [this], and a following getter call
    returns [[min, min]]. *)
Theorem zoomRange_single_value (min : number) (this : Tiler) :
  fst (zoomRange (Some min) None this) = Ok This
  /\ fst (zoomRange None None (snd (zoomRange (Some min) None this)))
     = Ok (Value (min, min)).
Proof. split; reflexivity. Qed.

(** ** Frame: methods that only read the receiver *)

Lemma read_only_ret {A} (a : A) : read_only (ret a).
Proof. intros this. reflexivity. Qed.

Lemma read_only_lift {A} (r : result A) : read_only (lift r).
Proof. intros this. reflexivity. Qed.

Lemma read_only_get_this : read_only get_this.
Proof. intros this. reflexivity. Qed.

Lemma read_only_bind {A B} (m : M A) (f : A -> M B) :
  read_only m -> (forall a, read_only (f a)) -> read_only (bind m f).
Proof.
  intros Hm Hf this. unfold bind.
  specialize (Hm this).
  destruct (m this) as [[a|e] this']; simpl in Hm; subst this'.
  - apply Hf.
  - reflexivity.
Qed.

Create HintDb read_only.

#[local] Hint Resolve read_only_ret read_only_lift read_only_get_this
  : read_only.

Section Frame.

Variable ln_approx : Q -> Q.
Variable pow_approx : Q -> Q -> Q.
Variable geoScaleToZoom : number -> number -> number.
Variable geoZoomToScale : number -> number -> number.
Variable Projection_invert : Projection -> Vec2 -> Vec2.

Lemma getTiles_read_only (projection : Projection) :
  read_only (getTiles ln_approx pow_approx geoScaleToZoom geoZoomToScale
               Projection_invert projection).
Proof.
  unfold getTiles.
  repeat (apply read_only_bind; [auto with read_only | intros ?]).
  auto with read_only.
Qed.

(** What [getTiles] computes from a receiver and a projection, without the
    state threading. *)
Lemma getTiles_unfold (projection : Projection) (this : Tiler) :
  fst (getTiles ln_approx pow_approx geoScaleToZoom geoZoomToScale
         Projection_invert projection this)
  = result_bind (getTiles_cols ln_approx pow_approx geoScaleToZoom
                   this projection)
      (fun cols =>
         result_bind (getTiles_rows ln_approx pow_approx geoScaleToZoom
                        this projection)
           (fun rows =>
              Ok {| tiles :=
                     getTiles_loop pow_approx geoScaleToZoom geoZoomToScale
                       Projection_invert this projection rows cols |})).
Proof.
  unfold getTiles, bind, get_this, lift, ret, result_bind.
  destruct (getTiles_cols _ _ _ this projection); [|reflexivity].
  destruct (getTiles_rows _ _ _ this projection); reflexivity.
Qed.

(** C10. [getTiles] never mutates the Tiler's configuration: tile size,
    zoom range, margin and the skip-null-island flag are the same after the
    call as before it, whatever the projection and whether or not the call
    raises. *)
Theorem getTiles_preserves_configuration
  (projection : Projection) (this : Tiler) :
  let this' :=
    snd (getTiles ln_approx pow_approx geoScaleToZoom geoZoomToScale
           Projection_invert projection this) in
  _tileSize this' = _tileSize this
  /\ _zoomRange this' = _zoomRange this
  /\ _margin this' = _margin this
  /\ _skipNullIsland this' = _skipNullIsland this.
Proof.
  intros this'. subst this'. rewrite getTiles_read_only. repeat split.
Qed.

End Frame.

(** ** The loops of [getTiles] *)

(** What [unshift] for visible tiles and [push] for the others build from a
    list of tiles taken in order. *)
Lemma place_fold (l acc : list Tile) :
  fold_left (fun tiles tile =>
               if isVisible tile then tile :: tiles else tiles ++ [tile])
    l acc
  = rev (filter isVisible l) ++ acc
      ++ filter (fun t => negb (isVisible t)) l.
Proof.
  revert acc. induction l as [|t l IH]; intros acc; simpl.
  - rewrite app_nil_r. reflexivity.
  - rewrite IH. destruct (isVisible t); simpl.
    + rewrite <- !app_assoc. reflexivity.
    + rewrite <- !app_assoc. reflexivity.
Qed.

Lemma visible_first_app (vis invis : list Tile) :
  Forall (fun t => isVisible t = true) vis ->
  Forall (fun t => isVisible t = false) invis ->
  visible_first (vis ++ invis).
Proof.
  intros Hv Hi i j ti tj Hti Htj Vi Vj.
  destruct (Nat.lt_ge_cases i (List.length vis)) as [Hlt|Hge].
  - destruct (Nat.lt_ge_cases j (List.length vis)) as [Hj|Hj]; [|lia].
    rewrite nth_error_app1 in Htj by exact Hj.
    apply nth_error_In in Htj.
    rewrite Forall_forall in Hv. rewrite (Hv _ Htj) in Vj. discriminate.
  - rewrite nth_error_app2 in Hti by exact Hge.
    apply nth_error_In in Hti.
    rewrite Forall_forall in Hi. rewrite (Hi _ Hti) in Vi. discriminate.
Qed.

Lemma range_ascending (start end_ : number) (l : list number) :
  range start end_ = Ok l -> ascending_from start l.
Proof.
  unfold range, result_bind.
  destruct (Array_new _) as [n|e]; [|discriminate].
  intros H; inversion H; subst l; clear H.
  intros i v Hi. unfold Array_keys in Hi. rewrite map_map in Hi.
  rewrite nth_error_map in Hi.
  destruct (nth_error (seq 0 n) i) as [k|] eqn:Hk; [|discriminate].
  simpl in Hi. inversion Hi; subst v; clear Hi.
  assert (Hlt : (i < n)%nat).
  { pose proof (nth_error_Some (seq 0 n) i) as Hs. rewrite length_seq in Hs.
    apply Hs. rewrite Hk. discriminate. }
  pose proof (nth_error_nth (seq 0 n) i 0%nat Hk) as Hn.
  rewrite seq_nth in Hn by exact Hlt. simpl in Hn. subst k. reflexivity.
Qed.

Section Loops.

Variable ln_approx : Q -> Q.
Variable pow_approx : Q -> Q -> Q.
Variable geoScaleToZoom : number -> number -> number.
Variable geoZoomToScale : number -> number -> number.
Variable Projection_invert : Projection -> Vec2 -> Vec2.
Variable this : Tiler.
Variable projection : Projection.

Lemma getTiles_inner_loop (y : number) (cols : list number) (acc : list Tile) :
  fold_left
    (fun tiles x =>
       getTiles_visit pow_approx geoScaleToZoom geoZoomToScale
         Projection_invert this projection y x tiles)
    cols acc
  = fold_left
      (fun tiles tile =>
         if isVisible tile then tile :: tiles else tiles ++ [tile])
      (enumeration pow_approx geoScaleToZoom geoZoomToScale
         Projection_invert this projection [y] cols)
      acc.
Proof.
  unfold enumeration. simpl. rewrite app_nil_r.
  revert acc. induction cols as [|x cols IH]; intros acc; simpl.
  - reflexivity.
  - rewrite IH. unfold getTiles_visit at 1. unfold skipped at 2.
    destruct (_skipNullIsland this && _); reflexivity.
Qed.

Lemma enumeration_cons (y : number) (rows cols : list number) :
  enumeration pow_approx geoScaleToZoom geoZoomToScale Projection_invert
    this projection (y :: rows) cols
  = enumeration pow_approx geoScaleToZoom geoZoomToScale Projection_invert
      this projection [y] cols
    ++ enumeration pow_approx geoScaleToZoom geoZoomToScale Projection_invert
         this projection rows cols.
Proof. unfold enumeration. simpl. rewrite app_nil_r. reflexivity. Qed.

Lemma getTiles_outer_loop (rows cols : list number) (acc : list Tile) :
  fold_left
    (fun tiles y =>
       fold_left
         (fun tiles x =>
            getTiles_visit pow_approx geoScaleToZoom geoZoomToScale
              Projection_invert this projection y x tiles)
         cols tiles)
    rows acc
  = fold_left
      (fun tiles tile =>
         if isVisible tile then tile :: tiles else tiles ++ [tile])
      (enumeration pow_approx geoScaleToZoom geoZoomToScale
         Projection_invert this projection rows cols)
      acc.
Proof.
  revert acc. induction rows as [|y rows IH]; intros acc.
  - reflexivity.
  - rewrite enumeration_cons, fold_left_app.
    rewrite <- getTiles_inner_loop, <- IH. reflexivity.
Qed.

(** The result of the two loops: the visible tiles of the enumeration in
    reverse, then the others in order. *)
Lemma getTiles_loop_enumeration (rows cols : list number) :
  getTiles_loop pow_approx geoScaleToZoom geoZoomToScale Projection_invert
    this projection rows cols
  = rev (filter isVisible
           (enumeration pow_approx geoScaleToZoom geoZoomToScale
              Projection_invert this projection rows cols))
    ++ filter (fun t => negb (isVisible t))
         (enumeration pow_approx geoScaleToZoom geoZoomToScale
            Projection_invert this projection rows cols).
Proof.
  unfold getTiles_loop. rewrite getTiles_outer_loop, place_fold.
  reflexivity.
Qed.

(** A successful call is a successful computation of the columns and of
    the rows, followed by the loops. *)
Lemma getTiles_Ok_inv (r : TileResult) :
  fst (getTiles ln_approx pow_approx geoScaleToZoom geoZoomToScale
         Projection_invert projection this) = Ok r ->
  exists rows cols,
    getTiles_rows ln_approx pow_approx geoScaleToZoom this projection
    = Ok rows
    /\ getTiles_cols ln_approx pow_approx geoScaleToZoom this projection
       = Ok cols
    /\ tiles r
       = getTiles_loop pow_approx geoScaleToZoom geoZoomToScale
           Projection_invert this projection rows cols.
Proof.
  rewrite getTiles_unfold. unfold result_bind.
  destruct (getTiles_cols _ _ _ this projection) as [cols|]; [|discriminate].
  destruct (getTiles_rows _ _ _ this projection) as [rows|]; [|discriminate].
  intros H; inversion H; subst r; clear H.
  exists rows, cols. repeat split.
Qed.

End Loops.

Lemma filter_split_Permutation {A} (f : A -> bool) (l : list A) :
  Permutation (rev (filter f l) ++ filter (fun a => negb (f a)) l) l.
Proof.
  transitivity (filter f l ++ filter (fun a => negb (f a)) l).
  - apply Permutation_app_tail. symmetry. apply Permutation_rev.
  - induction l as [|a l IH]; simpl; [constructor|].
    destruct (f a); simpl.
    + constructor. exact IH.
    + symmetry. apply Permutation_cons_app. symmetry. exact IH.
Qed.

Lemma Forall_filter_true {A} (f : A -> bool) (l : list A) :
  Forall (fun a => f a = true) (filter f l).
Proof.
  apply Forall_forall. intros a Ha. apply filter_In in Ha. tauto.
Qed.

Section Ordering.

Variable ln_approx : Q -> Q.
Variable pow_approx : Q -> Q -> Q.
Variable geoScaleToZoom : number -> number -> number.
Variable geoZoomToScale : number -> number -> number.
Variable Projection_invert : Projection -> Vec2 -> Vec2.

(** C4. In every result of [getTiles] all visible tiles precede all tiles
    that are not visible: the result is the visible tiles of the row-major
    enumeration (rows ascending, columns ascending within a row) in reverse
    order, followed by the non-visible ones in enumeration order. *)
Theorem getTiles_visible_first
  (projection : Projection) (this : Tiler) (r : TileResult) :
  fst (getTiles ln_approx pow_approx geoScaleToZoom geoZoomToScale
         Projection_invert projection this) = Ok r ->
  exists rows cols,
    getTiles_rows ln_approx pow_approx geoScaleToZoom this projection
    = Ok rows
    /\ getTiles_cols ln_approx pow_approx geoScaleToZoom this projection
       = Ok cols
    /\ (exists y0, ascending_from y0 rows)
    /\ (exists x0, ascending_from x0 cols)
    /\ tiles r
       = rev (filter isVisible
                (enumeration pow_approx geoScaleToZoom geoZoomToScale
                   Projection_invert this projection rows cols))
         ++ filter (fun t => negb (isVisible t))
              (enumeration pow_approx geoScaleToZoom geoZoomToScale
                 Projection_invert this projection rows cols)
    /\ visible_first (tiles r).
Proof.
  intros H. apply getTiles_Ok_inv in H.
  destruct H as (rows & cols & Hrows & Hcols & Htiles).
  rewrite getTiles_loop_enumeration in Htiles.
  exists rows, cols.
  split; [exact Hrows|]. split; [exact Hcols|].
  split; [eexists; eapply range_ascending; exact Hrows|].
  split; [eexists; eapply range_ascending; exact Hcols|].
  split; [exact Htiles|].
  rewrite Htiles. apply visible_first_app.
  - apply Forall_rev. apply Forall_filter_true.
  - apply Forall_forall. intros t Ht. apply filter_In in Ht.
    destruct Ht as [_ Ht]. apply negb_true_iff in Ht. exact Ht.
Qed.

Lemma enumeration_xyz (this : Tiler) (projection : Projection)
  (rows cols : list number) :
  map xyz
    (enumeration pow_approx geoScaleToZoom geoZoomToScale Projection_invert
       this projection rows cols)
  = flat_map
      (fun y =>
         map (fun x => (x, y, getTiles_z geoScaleToZoom this projection))
           (filter
              (fun x =>
                 negb (skipped pow_approx geoScaleToZoom this projection x y))
              cols))
      rows.
Proof.
  unfold enumeration. induction rows as [|y rows IH]; simpl.
  - reflexivity.
  - rewrite map_app, IH, map_map. reflexivity.
Qed.

(** C6. With the skip-null-island flag set, [getTiles] leaves every
    enumerated tile near Null Island out of its result altogether; the
    tiles returned are, up to order, the enumerated ones that are not
    skipped, and with the flag cleared they are all the enumerated ones. *)
Theorem getTiles_skips_null_island
  (projection : Projection) (this : Tiler) (r : TileResult) :
  fst (getTiles ln_approx pow_approx geoScaleToZoom geoZoomToScale
         Projection_invert projection this) = Ok r ->
  exists rows cols,
    getTiles_rows ln_approx pow_approx geoScaleToZoom this projection
    = Ok rows
    /\ getTiles_cols ln_approx pow_approx geoScaleToZoom this projection
       = Ok cols
    /\ Permutation (map xyz (tiles r))
         (flat_map
            (fun y =>
               map (fun x =>
                      (x, y, getTiles_z geoScaleToZoom this projection))
                 (filter
                    (fun x =>
                       negb (_skipNullIsland this
                             && isNearNullIsland pow_approx x y
                                  (getTiles_z geoScaleToZoom this
                                     projection)))
                    cols))
            rows)
    /\ (_skipNullIsland this = true ->
        forall t x y z,
          In t (tiles r) -> xyz t = (x, y, z) ->
          isNearNullIsland pow_approx x y z = false)
    /\ (_skipNullIsland this = false ->
        Permutation (map xyz (tiles r))
          (flat_map
             (fun y =>
                map (fun x =>
                       (x, y, getTiles_z geoScaleToZoom this projection))
                  cols)
             rows)).
Proof.
  intros H. apply getTiles_Ok_inv in H.
  destruct H as (rows & cols & Hrows & Hcols & Htiles).
  rewrite getTiles_loop_enumeration in Htiles.
  assert (HP : Permutation (map xyz (tiles r))
                 (map xyz
                    (enumeration pow_approx geoScaleToZoom geoZoomToScale
                       Projection_invert this projection rows cols))).
  { rewrite Htiles. apply Permutation_map. apply filter_split_Permutation. }
  rewrite enumeration_xyz in HP. unfold skipped in HP.
  exists rows, cols.
  split; [exact Hrows|]. split; [exact Hcols|]. split; [exact HP|]. split.
  - intros Hskip t x y z Ht Hxyz.
    assert (Hin : In (x, y, z) (map xyz (tiles r))).
    { rewrite <- Hxyz. apply in_map. exact Ht. }
    apply (Permutation_in _ HP) in Hin.
    apply in_flat_map in Hin. destruct Hin as (y' & _ & Hin).
    apply in_map_iff in Hin. destruct Hin as (x' & Heq & Hin).
    apply filter_In in Hin. destruct Hin as [_ Hkeep].
    inversion Heq; subst x' y' z; clear Heq.
    rewrite Hskip in Hkeep. simpl in Hkeep.
    apply negb_true_iff in Hkeep. exact Hkeep.
  - intros Hskip. rewrite Hskip in HP. simpl in HP.
    erewrite flat_map_ext; [exact HP|].
    intros y. simpl. f_equal. clear. induction cols as [|x cols IH]; simpl.
    + reflexivity.
    + rewrite <- IH. reflexivity.
Qed.

End Ordering.

(** ** The zoom of the tiles *)

Lemma Math_round_above (m : Z) (a : number) :
  (of_Z m <? a)%num = true ->
  Math_min (Math_round a) (of_Z m) = of_Z m.
Proof.
  destruct a as [q| | |]; simpl; try discriminate.
  - intros H. apply negb_true_iff in H.
    rewrite Math_min_of_Z. f_equal.
    assert (Hq : (inject_Z m <= q + (1 # 2))%Q).
    { destruct (Qlt_le_dec (inject_Z m) q) as [Hlt|Hle].
      - apply Qlt_le_weak. apply Qlt_le_trans with q; [exact Hlt|].
        rewrite <- (Qplus_0_r q) at 1. apply Qplus_le_r. discriminate.
      - apply Qle_bool_iff in Hle. rewrite Hle in H. discriminate. }
    apply Qfloor_resp_le in Hq. rewrite Qfloor_Z in Hq. lia.
  - intros _. reflexivity.
Qed.

(** [Math.round] of a finite number is an integer within a half of it. *)
Lemma Math_round_nearest (q : Q) :
  exists n, Math_round (Fin q) = of_Z n
            /\ (inject_Z n - (1 # 2) <= q)%Q /\ (q < inject_Z n + (1 # 2))%Q.
Proof.
  exists (Qfloor (q + (1 # 2))). split; [reflexivity|].
  pose proof (Qfloor_le (q + (1 # 2))) as Hle.
  pose proof (Qlt_floor (q + (1 # 2))) as Hlt.
  rewrite inject_Z_plus in Hlt. split.
  - apply (Qplus_le_l _ _ (1 # 2)). unfold Qminus.
    rewrite <- Qplus_assoc, (Qplus_comm (- (1 # 2))), Qplus_opp_r, Qplus_0_r.
    exact Hle.
  - apply (Qplus_lt_l _ _ (1 # 2)). rewrite <- Qplus_assoc.
    eapply Qlt_le_trans; [exact Hlt|]. apply Qplus_le_r. discriminate.
Qed.

Section Zoom.

Variable ln_approx : Q -> Q.
Variable pow_approx : Q -> Q -> Q.
Variable geoScaleToZoom : number -> number -> number.
Variable geoZoomToScale : number -> number -> number.
Variable Projection_invert : Projection -> Vec2 -> Vec2.

(** Every tile of a result is the descriptor of a column and a row of the
    computed ranges that the loop did not skip. *)
Lemma getTiles_tiles_inv (projection : Projection) (this : Tiler)
  (rows cols : list number) (t : Tile) :
  In t (getTiles_loop pow_approx geoScaleToZoom geoZoomToScale
          Projection_invert this projection rows cols) ->
  exists x y,
    In y rows /\ In x cols
    /\ skipped pow_approx geoScaleToZoom this projection x y = false
    /\ t = getTiles_tile pow_approx geoScaleToZoom geoZoomToScale
             Projection_invert this projection x y.
Proof.
  rewrite getTiles_loop_enumeration. intros Hin.
  assert (He : In t (enumeration pow_approx geoScaleToZoom geoZoomToScale
                       Projection_invert this projection rows cols)).
  { apply in_app_or in Hin. destruct Hin as [Hin|Hin].
    - apply in_rev in Hin. apply filter_In in Hin. tauto.
    - apply filter_In in Hin. tauto. }
  unfold enumeration in He. apply in_flat_map in He.
  destruct He as (y & Hy & He). apply in_map_iff in He.
  destruct He as (x & Ht & Hx). apply filter_In in Hx.
  destruct Hx as [Hx Hk]. apply negb_true_iff in Hk.
  exists x, y. auto.
Qed.

(** C2. The zoom of every tile [getTiles] returns is the fractional zoom
    [geoScaleToZoom(scale, tileSize)] rounded to the nearest integer (an
    integer within a half of it) and clamped into the configured zoom
    range; so when the zoom range is a pair of integers [min <= max] and
    the fractional zoom exceeds [max], every returned tile is at zoom
    [max]. *)
Theorem getTiles_zoom_clamped
  (projection : Projection) (this : Tiler) (r : TileResult) :
  fst (getTiles ln_approx pow_approx geoScaleToZoom geoZoomToScale
         Projection_invert projection this) = Ok r ->
  (forall t, In t (tiles r) ->
     snd (xyz t)
     = clamp (Math_round (geoScaleToZoom (scale projection) (_tileSize this)))
         (fst (_zoomRange this)) (snd (_zoomRange this)))
  /\ (forall q : Q,
        geoScaleToZoom (scale projection) (_tileSize this) = Fin q ->
        exists n,
          Math_round (geoScaleToZoom (scale projection) (_tileSize this))
          = of_Z n
          /\ (inject_Z n - (1 # 2) <= q)%Q /\ (q < inject_Z n + (1 # 2))%Q)
  /\ (forall min max : Z,
        _zoomRange this = (of_Z min, of_Z max) -> min <= max ->
        (of_Z max <? geoScaleToZoom (scale projection) (_tileSize this))%num
        = true ->
        forall t, In t (tiles r) -> snd (xyz t) = of_Z max).
Proof.
  intros H. apply getTiles_Ok_inv in H.
  destruct H as (rows & cols & _ & _ & Htiles).
  assert (Hz : forall t, In t (tiles r) ->
               snd (xyz t) = getTiles_z geoScaleToZoom this projection).
  { intros t Ht. rewrite Htiles in Ht. apply getTiles_tiles_inv in Ht.
    destruct Ht as (x & y & _ & _ & _ & ->). reflexivity. }
  split; [|split].
  - exact Hz.
  - intros q ->. apply Math_round_nearest.
  - intros min max Hrange Hle Habove t Ht. rewrite (Hz t Ht).
    unfold getTiles_z, getTiles_zFrac, clamp. rewrite Hrange. simpl fst.
    simpl snd. rewrite (Math_round_above _ _ Habove), Math_max_of_Z.
    f_equal. lia.
Qed.

End Zoom.

(** ** Ranges of tile indices *)

Lemma Array_new_of_Z (n : Z) :
  Array_new (of_Z n)
  = if (0 <=? n) && (n <? 2 ^ 32) then Ok (Z.to_nat n) else Throw RangeError.
Proof.
  unfold Array_new, of_Z. rewrite Qis_int_inject_Z, Qfloor_Z. reflexivity.
Qed.

Lemma Zseq_seq (start : Z) (n : nat) :
  map (fun i => start + Z.of_nat i) (seq 0 n) = Zseq start n.
Proof.
  revert start. induction n as [|n IH]; intros start; simpl.
  - reflexivity.
  - rewrite Z.add_0_r. f_equal. rewrite <- seq_shift, map_map, <- IH.
    apply map_ext. intros i. lia.
Qed.

Lemma Zseq_length (start : Z) (n : nat) : List.length (Zseq start n) = n.
Proof.
  revert start. induction n as [|n IH]; intros start; simpl; auto.
Qed.

Lemma Zseq_app (start : Z) (n m : nat) :
  Zseq start (n + m) = Zseq start n ++ Zseq (start + Z.of_nat n) m.
Proof.
  revert start. induction n as [|n IH]; intros start.
  - simpl. rewrite Z.add_0_r. reflexivity.
  - simpl Zseq at 1 2. simpl app. rewrite IH. do 3 f_equal. lia.
Qed.

Lemma Zseq_In (start : Z) (n : nat) (v : Z) :
  In v (Zseq start n) <-> start <= v < start + Z.of_nat n.
Proof.
  revert start. induction n as [|n IH]; intros start; simpl.
  - lia.
  - rewrite IH. lia.
Qed.

Lemma range_of_Z (lo hi : Z) :
  range (of_Z lo) (of_Z hi)
  = if (0 <=? hi - lo + 1) && (hi - lo + 1 <? 2 ^ 32)
    then Ok (map of_Z (Zseq lo (Z.to_nat (hi - lo + 1))))
    else Throw RangeError.
Proof.
  unfold range. rewrite of_Z_add, of_Z_sub, Array_new_of_Z.
  replace (1 + hi - lo) with (hi - lo + 1) by lia.
  destruct ((0 <=? hi - lo + 1) && (hi - lo + 1 <? 2 ^ 32)); simpl;
    [|reflexivity].
  f_equal. unfold Array_keys. rewrite <- Zseq_seq, !map_map.
  apply map_ext. intros i. apply of_Z_add.
Qed.

Lemma range_NaN_l (b : number) : range NaN b = Throw RangeError.
Proof. unfold range. destruct b; reflexivity. Qed.

Lemma range_NaN_r (a : number) : range a NaN = Throw RangeError.
Proof. unfold range. destruct a; reflexivity. Qed.

(** A range of integers inside a wider one. *)
Lemma range_of_Z_widen (lo hi lo' hi' : Z) (l l' : list number) :
  lo' <= lo -> hi <= hi' ->
  range (of_Z lo) (of_Z hi) = Ok l ->
  range (of_Z lo') (of_Z hi') = Ok l' ->
  exists pre post, l' = pre ++ l ++ post.
Proof.
  intros Hlo Hhi. rewrite !range_of_Z.
  destruct (_ && _) eqn:E; [|discriminate].
  destruct (_ && _) eqn:E' in |- *; [|discriminate].
  apply andb_true_iff in E, E'. rewrite Z.leb_le, Z.ltb_lt in E, E'.
  intros [= <-] [= <-].
  exists (map of_Z (Zseq lo' (Z.to_nat (lo - lo')))),
         (map of_Z (Zseq (hi + 1) (Z.to_nat (hi' - hi)))).
  rewrite <- !map_app. f_equal.
  replace (Z.to_nat (hi' - lo' + 1))
    with (Z.to_nat (lo - lo')
          + (Z.to_nat (hi - lo + 1) + Z.to_nat (hi' - hi)))%nat by lia.
  rewrite !Zseq_app. do 2 f_equal; [f_equal; lia|].
  f_equal. lia.
Qed.

(** ** Clamping into the tile indices of a zoom *)

Lemma Math_floor_ext_int (a : number) :
  Math_floor a = NaN \/ ext_int (Math_floor a).
Proof. destruct a; simpl; auto using ext_int. Qed.

Lemma Math_round_ext_int (a : number) :
  Math_round a = NaN \/ ext_int (Math_round a).
Proof. destruct a; simpl; auto using ext_int. Qed.

Lemma clamp_NaN (lo hi : number) : clamp NaN lo hi = NaN.
Proof. unfold clamp, Math_min, Math_max. simpl. destruct lo; reflexivity. Qed.

Lemma clamp_hi_NaN (v lo : number) : clamp v lo NaN = NaN.
Proof.
  unfold clamp, Math_min, Math_max. destruct v, lo; reflexivity.
Qed.

(** Clamping to [[0, max]] for an integer [max >= 0]. *)
Lemma clamp_Zclamp (v : number) (max : Z) :
  ext_int v -> 0 <= max ->
  clamp v (of_Z 0) (of_Z max) = of_Z (Zclamp v max).
Proof.
  intros Hv Hmax. destruct Hv as [n| |]; unfold clamp.
  - rewrite Math_min_of_Z, Math_max_of_Z. unfold Zclamp, of_Z.
    rewrite Qfloor_Z. reflexivity.
  - simpl Zclamp. replace (Z.max 0 max) with max by lia.
    change (Math_min PInf (of_Z max)) with (of_Z max).
    rewrite Math_max_of_Z. f_equal. lia.
  - reflexivity.
Qed.

Lemma Math_max_zero_nonpos (r : Q) :
  (r <= 0)%Q -> Math_max (of_Z 0) (Fin r) = of_Z 0.
Proof.
  intros Hr. unfold Math_max, of_Z. simpl.
  change (inject_Z 0) with 0%Q.
  apply Qle_bool_iff in Hr. rewrite Hr. reflexivity.
Qed.

(** Clamping to [[0, max]] for a negative [max]: always 0. *)
Lemma clamp_negative_max (v : number) (q : Q) :
  ext_int v -> (q < 0)%Q ->
  clamp v (of_Z 0) (Fin q) = of_Z (Zclamp v (-1)).
Proof.
  intros Hv Hq. destruct Hv as [n| |]; unfold clamp.
  - replace (Zclamp (of_Z n) (-1)) with 0 by (unfold Zclamp, of_Z; lia).
    unfold Math_min. simpl is_nan. simpl orb. cbv iota.
    destruct (Fin q <? of_Z n)%num eqn:E.
    + apply Math_max_zero_nonpos. apply Qlt_le_weak. exact Hq.
    + apply Math_max_zero_nonpos. simpl in E. apply negb_false_iff in E.
      apply Qle_bool_iff in E. apply Qlt_le_weak.
      eapply Qle_lt_trans; [exact E | exact Hq].
  - change (Math_min PInf (Fin q)) with (Fin q).
    apply Math_max_zero_nonpos. apply Qlt_le_weak. exact Hq.
  - reflexivity.
Qed.

Lemma ext_int_sub (v : number) (m : Z) :
  ext_int v -> ext_int (v - of_Z m)%num.
Proof.
  intros [n| |]; [rewrite of_Z_sub|simpl|simpl]; constructor.
Qed.

Lemma ext_int_add (v : number) (m : Z) :
  ext_int v -> ext_int (v + of_Z m)%num.
Proof.
  intros [n| |]; [rewrite of_Z_add|simpl|simpl]; constructor.
Qed.

(** A wider margin lowers the clamped lower bound and raises the clamped
    upper bound. *)
Lemma Zclamp_sub_mono (v : number) (m max : Z) :
  ext_int v ->
  Zclamp (v - of_Z (m + 1))%num max <= Zclamp (v - of_Z m)%num max.
Proof.
  intros [n| |].
  - rewrite !of_Z_sub. unfold Zclamp, of_Z. rewrite !Qfloor_Z. lia.
  - simpl. lia.
  - simpl. lia.
Qed.

Lemma Zclamp_add_mono (v : number) (m max : Z) :
  ext_int v ->
  Zclamp (v + of_Z m)%num max <= Zclamp (v + of_Z (m + 1))%num max.
Proof.
  intros [n| |].
  - rewrite !of_Z_add. unfold Zclamp, of_Z. rewrite !Qfloor_Z. lia.
  - simpl. lia.
  - simpl. lia.
Qed.

Lemma Zclamp_bounds (v : number) (max : Z) :
  -1 <= max -> 0 <= Zclamp v max <= Z.max 0 max.
Proof. intros H. destruct v; simpl; lia. Qed.

(** ** Margins *)

(** Widening the margin by one widens the range of an axis at both ends. *)
Lemma axis_range_widen (a b maxTile : number) (m max : Z)
  (l l' : list number) :
  maxTile = NaN \/ tile_bound maxTile max ->
  range (clamp (Math_floor a - of_Z m) (of_Z 0) maxTile)
        (clamp (Math_floor b + of_Z m) (of_Z 0) maxTile) = Ok l ->
  range (clamp (Math_floor a - of_Z (m + 1)) (of_Z 0) maxTile)
        (clamp (Math_floor b + of_Z (m + 1)) (of_Z 0) maxTile) = Ok l' ->
  exists pre post, l' = pre ++ l ++ post.
Proof.
  intros [->|[Hmax Hclamp]].
  { rewrite !clamp_hi_NaN, range_NaN_l. discriminate. }
  destruct (Math_floor_ext_int a) as [->|Ha].
  { simpl num_sub. rewrite !clamp_NaN, range_NaN_l. discriminate. }
  destruct (Math_floor_ext_int b) as [->|Hb].
  { simpl num_add. rewrite !clamp_NaN, range_NaN_r. discriminate. }
  rewrite !Hclamp by auto using ext_int_sub, ext_int_add.
  apply range_of_Z_widen.
  - apply Zclamp_sub_mono. exact Ha.
  - apply Zclamp_add_mono. exact Hb.
Qed.



Section Margin.

Variable ln_approx : Q -> Q.
Variable pow_approx : Q -> Q -> Q.
Variable geoScaleToZoom : number -> number -> number.
Variable geoZoomToScale : number -> number -> number.
Variable Projection_invert : Projection -> Vec2 -> Vec2.

Lemma enumeration_length (this : Tiler) (projection : Projection)
  (rows cols : list number) :
  List.length
    (enumeration pow_approx geoScaleToZoom geoZoomToScale Projection_invert
       this projection rows cols)
  = List.length
      (flat_map
         (fun y =>
            filter
              (fun x =>
                 negb (skipped pow_approx geoScaleToZoom this projection x y))
              cols)
         rows).
Proof.
  unfold enumeration. induction rows as [|y rows IH]; simpl; [reflexivity|].
  rewrite !length_app, length_map, IH. reflexivity.
Qed.

Lemma getTiles_loop_length (this : Tiler) (projection : Projection)
  (rows cols : list number) :
  List.length
    (getTiles_loop pow_approx geoScaleToZoom geoZoomToScale Projection_invert
       this projection rows cols)
  = List.length
      (enumeration pow_approx geoScaleToZoom geoZoomToScale Projection_invert
         this projection rows cols).
Proof.
  rewrite getTiles_loop_enumeration.
  apply Permutation_length, filter_split_Permutation.
Qed.

(** The zoom of a Tiler whose zoom range is a pair of integers is an
    integer no larger than the larger of the two, or NaN. *)
Lemma getTiles_z_cases (this : Tiler) (projection : Projection)
  (min max : Z) :
  _zoomRange this = (of_Z min, of_Z max) ->
  (getTiles_zFrac geoScaleToZoom this projection = NaN
   /\ getTiles_z geoScaleToZoom this projection = NaN)
  \/ exists z, getTiles_z geoScaleToZoom this projection = of_Z z
               /\ z <= Z.max min max.
Proof.
  intros Hr. unfold getTiles_z. rewrite Hr. simpl fst. simpl snd.
  destruct (Math_round_ext_int (getTiles_zFrac geoScaleToZoom this projection))
    as [E|H].
  - left. rewrite E. split; [|apply clamp_NaN].
    destruct (getTiles_zFrac geoScaleToZoom this projection);
      try discriminate E; reflexivity.
  - right. unfold clamp. destruct H as [n| |].
    + rewrite Math_min_of_Z, Math_max_of_Z. eexists; split; [reflexivity|].
      lia.
    + change (Math_min PInf (of_Z max)) with (of_Z max).
      rewrite Math_max_of_Z. eexists; split; [reflexivity|]. lia.
    + change (Math_min NInf (of_Z max)) with NInf.
      change (Math_max (of_Z min) NInf) with (of_Z min).
      eexists; split; [reflexivity|]. lia.
Qed.

(** The largest tile index of such a Tiler: NaN, or a bound for clamping. *)
Lemma getTiles_maxTile_cases (this : Tiler) (projection : Projection)
  (min max : Z) :
  _zoomRange this = (of_Z min, of_Z max) ->
  (getTiles_zFrac geoScaleToZoom this projection = NaN
   /\ getTiles_maxTile pow_approx geoScaleToZoom this projection = NaN)
  \/ exists b,
       tile_bound (getTiles_maxTile pow_approx geoScaleToZoom this projection)
         b
       /\ b < 2 ^ Z.max 0 (Z.max min max).
Proof.
  intros Hr. unfold getTiles_maxTile.
  destruct (getTiles_z_cases this projection Hr) as [[E ->]|(z & -> & Hz)].
  - left. split; [exact E|reflexivity].
  - right. destruct (Z.le_gt_cases 0 z) as [Hpos|Hneg].
    + rewrite Math_pow_2_nonneg, of_Z_sub by exact Hpos.
      exists (2 ^ z - 1). split.
      * split; [pose proof (Z.pow_pos_nonneg 2 z); lia|].
        intros v Hv. apply clamp_Zclamp; [exact Hv|].
        pose proof (Z.pow_pos_nonneg 2 z); lia.
      * assert (2 ^ z <= 2 ^ Z.max 0 (Z.max min max))
          by (apply Z.pow_le_mono_r; lia).
        lia.
    + destruct (Math_pow_2_neg pow_approx Hneg) as (q & -> & Hq0 & Hq1).
      exists (-1). split.
      * split; [lia|]. intros v Hv. unfold of_Z at 1. unfold num_sub.
        apply clamp_negative_max; [exact Hv|].
        rewrite Qred_correct. unfold Qminus.
        rewrite <- (Qplus_opp_r (inject_Z 1)).
        apply Qplus_lt_l. exact Hq1.
      * pose proof (Z.pow_pos_nonneg 2 (Z.max 0 (Z.max min max))). lia.
Qed.

Lemma getTiles_rows_at_margin (this : Tiler) (projection : Projection)
  (m : Z) :
  getTiles_rows ln_approx pow_approx geoScaleToZoom
    (snd (margin (Some (of_Z m)) this)) projection
  = range
      (clamp
         (Math_floor
            (snd (getTiles_viewMin projection)
             / getTiles_k ln_approx pow_approx geoScaleToZoom this projection)
          - of_Z m)
         (of_Z 0)
         (getTiles_maxTile pow_approx geoScaleToZoom this projection))
      (clamp
         (Math_floor
            (snd (getTiles_viewMax projection)
             / getTiles_k ln_approx pow_approx geoScaleToZoom this projection)
          + of_Z m)
         (of_Z 0)
         (getTiles_maxTile pow_approx geoScaleToZoom this projection)).
Proof. reflexivity. Qed.

Lemma getTiles_cols_at_margin (this : Tiler) (projection : Projection)
  (m : Z) :
  getTiles_cols ln_approx pow_approx geoScaleToZoom
    (snd (margin (Some (of_Z m)) this)) projection
  = range
      (clamp
         (Math_floor
            (fst (getTiles_viewMin projection)
             / getTiles_k ln_approx pow_approx geoScaleToZoom this projection)
          - of_Z m)
         (of_Z 0)
         (getTiles_maxTile pow_approx geoScaleToZoom this projection))
      (clamp
         (Math_floor
            (fst (getTiles_viewMax projection)
             / getTiles_k ln_approx pow_approx geoScaleToZoom this projection)
          + of_Z m)
         (of_Z 0)
         (getTiles_maxTile pow_approx geoScaleToZoom this projection)).
Proof. reflexivity. Qed.

Lemma skipped_at_margin (this : Tiler) (projection : Projection)
  (v : number) (x y : number) :
  skipped pow_approx geoScaleToZoom (snd (margin (Some v) this)) projection
    x y
  = skipped pow_approx geoScaleToZoom this projection x y.
Proof. reflexivity. Qed.


End Margin.

(** ** The whole world in view *)

Lemma Math_floor_of_Z (n : Z) : Math_floor (of_Z n) = of_Z n.
Proof. unfold Math_floor, of_Z. rewrite Qfloor_Z. reflexivity. Qed.





Lemma filter_all {A} (l : list A) : filter (fun _ => negb false) l = l.
Proof.
  induction l as [|a l IH]; simpl; [reflexivity|]. f_equal. exact IH.
Qed.



Lemma flat_map_length_const {A B} (f : A -> list B) (l : list A) (n : nat) :
  (forall a, List.length (f a) = n) ->
  List.length (flat_map f l) = (List.length l * n)%nat.
Proof.
  intros H. induction l as [|a l IH]; simpl; [reflexivity|].
  rewrite length_app, H, IH. reflexivity.
Qed.

Lemma Math_round_of_Z (n : Z) : Math_round (of_Z n) = of_Z n.
Proof.
  unfold Math_round, of_Z. f_equal. f_equal.
  assert (Hle : (inject_Z n <= inject_Z n + (1 # 2))%Q).
  { rewrite <- (Qplus_0_r (inject_Z n)) at 1. apply Qplus_le_r. discriminate. }
  assert (Hlt : (inject_Z n + (1 # 2) < inject_Z (n + 1))%Q).
  { rewrite inject_Z_plus. apply Qplus_lt_r. reflexivity. }
  pose proof (Qfloor_resp_le _ _ Hle) as H1. rewrite Qfloor_Z in H1.
  pose proof (Qfloor_le (inject_Z n + (1 # 2))) as H2.
  assert (H3 : (inject_Z (Qfloor (inject_Z n + (1 # 2))) < inject_Z (n + 1))%Q)
    by (eapply Qle_lt_trans; eassumption).
  rewrite <- Zlt_Qlt in H3. lia.
Qed.



Section WholeWorld.

Variable ln_approx : Q -> Q.
Variable pow_approx : Q -> Q -> Q.
Variable geoScaleToZoom : number -> number -> number.
Variable geoZoomToScale : number -> number -> number.
Variable Projection_invert : Projection -> Vec2 -> Vec2.

Variable z : Z.
Hypothesis z_range : 0 <= z <= 24.

(** What the math library gives on this projection: a fractional zoom
    that rounds to [z], and a factor [k] that is positive and at most
    [256 * 2^z / (2^z - 1)].  This is so when the library is exact at the
    powers of two involved (the zoom is [z] and [k] is 256), and also
    when it misses them by a rounding error. *)
Hypothesis zoom_rounds :
  Math_round (geoScaleToZoom (scale (world_projection 256 z)) (of_Z 256))
  = of_Z z.
Variable kq : Q.
Hypothesis k_value :
  getTiles_k ln_approx pow_approx geoScaleToZoom new_Tiler
    (world_projection 256 z) = Fin kq.
Hypothesis k_positive : (0 < kq)%Q.
Hypothesis k_bound : (inject_Z (2 ^ z - 1) * kq <= inject_Z (256 * 2 ^ z))%Q.













End WholeWorld.

(** ** When [getTiles] returns *)

Lemma flat_map_filter_length_le {A B} (keep : B -> A -> bool)
  (rows : list B) (cols : list A) :
  (List.length (flat_map (fun y => filter (keep y) cols) rows)
   <= List.length rows * List.length cols)%nat.
Proof.
  induction rows as [|y rows IH]; simpl; [lia|].
  rewrite length_app. pose proof (filter_length_le (keep y) cols). lia.
Qed.

Section Returns.

Variable ln_approx : Q -> Q.
Variable pow_approx : Q -> Q -> Q.
Variable geoScaleToZoom : number -> number -> number.
Variable geoZoomToScale : number -> number -> number.
Variable Projection_invert : Projection -> Vec2 -> Vec2.

Lemma getTiles_cols_bounds (this : Tiler) (projection : Projection) :
  getTiles_cols ln_approx pow_approx geoScaleToZoom this projection
  = range
      (fst (getTiles_colBounds ln_approx pow_approx geoScaleToZoom this
              projection))
      (snd (getTiles_colBounds ln_approx pow_approx geoScaleToZoom this
              projection)).
Proof. reflexivity. Qed.

Lemma getTiles_rows_bounds (this : Tiler) (projection : Projection) :
  getTiles_rows ln_approx pow_approx geoScaleToZoom this projection
  = range
      (fst (getTiles_rowBounds ln_approx pow_approx geoScaleToZoom this
              projection))
      (snd (getTiles_rowBounds ln_approx pow_approx geoScaleToZoom this
              projection)).
Proof. reflexivity. Qed.











End Returns.

(** ** The theorems at work on concrete inputs *)

Import Examples.


(** C2 with the zoom range set to [0, 1] and the world in view at zoom 3:
    the four tiles returned are at zoom 1. *)
Lemma getTiles_zoom_clamped_witness :
  exists r,
    fst (Reference.getTiles (world_projection 256 3) tiler_to_zoom_1) = Ok r
    /\ _zoomRange tiler_to_zoom_1 = (of_Z 0, of_Z 1)
    /\ (of_Z 1 <? Reference.geoScaleToZoom (scale (world_projection 256 3))
                    (_tileSize tiler_to_zoom_1))%num = true
    /\ List.length (tiles r) = 4%nat
    /\ forall t, In t (tiles r) -> snd (xyz t) = of_Z 1.
Proof.
  eexists. split; [vm_compute; reflexivity|].
  split; [reflexivity|]. split; [vm_compute; reflexivity|].
  split; [reflexivity|].
  refine (proj2 (proj2 (@getTiles_zoom_clamped Reference.ln_approx
                          Reference.pow_approx Reference.geoScaleToZoom
                          Reference.geoZoomToScale Reference.Projection_invert
                          (world_projection 256 3) tiler_to_zoom_1 _ _))
            0 1 _ _ _).
  - vm_compute; reflexivity.
  - reflexivity.
  - lia.
  - vm_compute; reflexivity.
Defined.

(** C4 with a margin of one tile around a viewport of two tiles: the two
    visible tiles come first, the ten margin tiles after them. *)
Lemma getTiles_visible_first_witness :
  exists r,
    fst (Reference.getTiles partial_view (tiler_with_margin 1)) = Ok r
    /\ map (fun t => (id t, isVisible t)) (tiles r)
       = [("2,1,2", true); ("1,1,2", true);
          ("0,0,2", false); ("1,0,2", false); ("2,0,2", false);
          ("3,0,2", false); ("0,1,2", false); ("3,1,2", false);
          ("0,2,2", false); ("1,2,2", false); ("2,2,2", false);
          ("3,2,2", false)]%string
    /\ visible_first (tiles r).
Proof.
  eexists. split; [vm_compute; reflexivity|]. split; [reflexivity|].
  destruct (@getTiles_visible_first Reference.ln_approx Reference.pow_approx
              Reference.geoScaleToZoom Reference.geoZoomToScale
              Reference.Projection_invert partial_view (tiler_with_margin 1)
              _ ltac:(vm_compute; reflexivity))
    as (rows & cols & _ & _ & _ & _ & _ & H).
  exact H.
Defined.

(** C6 around Null Island at zoom 7: of the 16 tiles in view the four
    near Null Island are left out. *)
Lemma getTiles_skips_null_island_witness :
  exists r,
    fst (Reference.getTiles null_island_view tiler_skipping) = Ok r
    /\ List.length (tiles r) = 12%nat
    /\ forall t x y z,
         In t (tiles r) -> xyz t = (x, y, z) ->
         Reference.isNearNullIsland x y z = false.
Proof.
  eexists. split; [vm_compute; reflexivity|]. split; [reflexivity|].
  destruct (@getTiles_skips_null_island Reference.ln_approx
              Reference.pow_approx Reference.geoScaleToZoom
              Reference.geoZoomToScale Reference.Projection_invert
              null_island_view tiler_skipping
              _ ltac:(vm_compute; reflexivity))
    as (rows & cols & _ & _ & _ & H & _).
  apply H. reflexivity.
Defined.




(** * Further properties of the module *)

(** ** Comparisons as propositions *)

Lemma num_le_Fin (x y : Q) : (Fin x <=? Fin y)%num = true <-> (x <= y)%Q.
Proof. apply Qle_bool_iff. Qed.

Lemma num_lt_Fin (x y : Q) : (Fin x <? Fin y)%num = true <-> (x < y)%Q.
Proof.
  simpl. rewrite negb_true_iff. split.
  - intros H. apply Qnot_le_lt. intros Hle. apply Qle_bool_iff in Hle.
    congruence.
  - intros H. apply not_true_is_false. intros Hle. apply Qle_bool_iff in Hle.
    apply (Qlt_not_le _ _ H Hle).
Qed.

Lemma num_lt_Fin_false (x y : Q) : (Fin x <? Fin y)%num = false <-> (y <= x)%Q.
Proof.
  simpl. rewrite negb_false_iff. apply Qle_bool_iff.
Qed.

Lemma num_eq_Fin (x y : Q) : num_eq (Fin x) (Fin y) = true <-> (x == y)%Q.
Proof. apply Qeq_bool_iff. Qed.

(** ** [clamp] *)

(** X1. For bounds [min <= max] and a number [num] (not NaN), [clamp]
    returns a value between the bounds, returns [num] itself (up to [===])
    when it already lies between them, and is idempotent.  *)
Theorem clamp_between (num min max : number) :
  (min <=? max)%num = true -> is_nan num = false ->
  (min <=? clamp num min max)%num = true
  /\ (clamp num min max <=? max)%num = true
  /\ ((min <=? num)%num = true -> (num <=? max)%num = true ->
      num_eq (clamp num min max) num = true)
  /\ num_eq (clamp (clamp num min max) min max) (clamp num min max) = true.
Proof.
  intros Hb Hn. unfold clamp, Math_max, Math_min.
  destruct num as [n| | |], min as [a| | |], max as [b| | |];
    try discriminate; simpl in *;
    repeat match goal with
      | |- context [Qle_bool ?x ?y] =>
          let E := fresh "E" in
          destruct (Qle_bool x y) eqn:E; simpl;
          [apply Qle_bool_iff in E
          |apply not_true_iff_false in E; rewrite Qle_bool_iff in E;
           apply Qnot_le_lt in E]
      | H : Qle_bool _ _ = true |- _ => apply Qle_bool_iff in H
      end;
    repeat split; intros;
    repeat match goal with
      | H : Qle_bool _ _ = true |- _ => apply Qle_bool_iff in H
      | |- Qle_bool _ _ = true => apply Qle_bool_iff
      | |- Qeq_bool _ _ = true => apply Qeq_bool_iff
      end;
    try reflexivity; try discriminate; try lra.
Qed.

(** ** [range] *)

(** X2. On integers below [2^53] in magnitude, for which the length
    [1 + end - start] and the elements [start + v] are computed exactly,
    [range(start, end)] is the list of the integers from [start] to [end]
    in ascending order when [start <= end] (fewer than [2^32] of them),
    the empty list when [end = start - 1], and raises a RangeError when
    [end < start - 1]. *)
Theorem range_integers (start end_ : Z) :
  safe_integer start -> safe_integer end_ ->
  (start <= end_ + 1 -> end_ - start + 1 < 2 ^ 32 ->
   exists l,
     range (of_Z start) (of_Z end_) = Ok l
     /\ List.length l = Z.to_nat (end_ - start + 1)
     /\ (forall i v, nth_error l i = Some v -> v = of_Z (start + Z.of_nat i))
     /\ (forall n, In (of_Z n) l <-> start <= n <= end_)
     /\ (end_ = start - 1 -> l = []))
  /\ (end_ < start - 1 -> range (of_Z start) (of_Z end_) = Throw RangeError).
Proof.
  intros _ _. split.
  - intros H1 H2. rewrite range_of_Z.
    replace ((0 <=? end_ - start + 1) && (end_ - start + 1 <? 2 ^ 32))
      with true
      by (symmetry; apply andb_true_iff; rewrite Z.leb_le, Z.ltb_lt; lia).
    eexists. split; [reflexivity|]. split; [|split; [|split]].
    + rewrite length_map. apply Zseq_length.
    + intros i v Hi.
      assert (Hr : range (of_Z start) (of_Z end_)
                   = Ok (map of_Z (Zseq start (Z.to_nat (end_ - start + 1))))).
      { rewrite range_of_Z.
        replace ((0 <=? end_ - start + 1) && (end_ - start + 1 <? 2 ^ 32))
          with true
          by (symmetry; apply andb_true_iff; rewrite Z.leb_le, Z.ltb_lt; lia).
        reflexivity. }
      rewrite (range_ascending _ _ Hr i Hi). apply of_Z_add.
    + intros n. rewrite in_map_iff. split.
      * intros (k & Hk & Hin). apply Zseq_In in Hin.
        unfold of_Z, inject_Z in Hk. injection Hk as ->. lia.
      * intros Hn. exists n. split; [reflexivity|]. apply Zseq_In. lia.
    + intros ->. replace (start - 1 - start + 1) with 0 by lia. reflexivity.
  - intros H. rewrite range_of_Z.
    replace (0 <=? end_ - start + 1) with false
      by (symmetry; apply Z.leb_gt; lia).
    reflexivity.
Qed.

(** X3. Two adjacent ranges of integers below [2^53] in magnitude make
    one, if the whole fits an array: when [range(a, b)] and
    [range(b + 1, c)] return and there are fewer than [2^32] integers from
    [a] to [c], [range(a, c)] returns the first followed by the second. *)
Theorem range_adjacent (a b c : Z) (l1 l2 : list number) :
  safe_integer a -> safe_integer b -> safe_integer c ->
  range (of_Z a) (of_Z b) = Ok l1 ->
  range (of_Z (b + 1)) (of_Z c) = Ok l2 ->
  c - a + 1 < 2 ^ 32 ->
  range (of_Z a) (of_Z c) = Ok (l1 ++ l2).
Proof.
  intros _ _ _ H1 H2 Hfit. rewrite range_of_Z in H1, H2.
  destruct ((0 <=? b - a + 1) && (b - a + 1 <? 2 ^ 32)) eqn:E1;
    [|discriminate].
  destruct ((0 <=? c - (b + 1) + 1) && (c - (b + 1) + 1 <? 2 ^ 32)) eqn:E2;
    [|discriminate].
  injection H1 as <-. injection H2 as <-.
  apply andb_true_iff in E1, E2. rewrite Z.leb_le, Z.ltb_lt in E1, E2.
  rewrite range_of_Z.
  replace ((0 <=? c - a + 1) && (c - a + 1 <? 2 ^ 32)) with true
    by (symmetry; apply andb_true_iff; rewrite Z.leb_le, Z.ltb_lt; lia).
  rewrite <- map_app. do 2 f_equal.
  replace (Z.to_nat (c - a + 1))
    with (Z.to_nat (b - a + 1) + Z.to_nat (c - (b + 1) + 1))%nat by lia.
  rewrite Zseq_app. do 2 f_equal. lia.
Qed.

(** ** More on the tiles [getTiles] returns *)

Lemma Math_round_below (m : Z) (a : number) :
  (a <? of_Z m)%num = true ->
  Math_max (of_Z m) (Math_round a) = of_Z m.
Proof.
  destruct a as [q| | |]; simpl; try discriminate.
  - intros H. apply negb_true_iff in H.
    rewrite Math_max_of_Z. f_equal.
    assert (Hq : (q + (1 # 2) < inject_Z (m + 1))%Q).
    { rewrite inject_Z_plus.
      assert (Hlt : (q < inject_Z m)%Q).
      { apply Qnot_le_lt. intros Hle. apply Qle_bool_iff in Hle. congruence. }
      change (inject_Z 1) with 1%Q. lra. }
    pose proof (Qfloor_le (q + (1 # 2))) as Hf.
    assert (H3 : (inject_Z (Qfloor (q + (1 # 2))) < inject_Z (m + 1))%Q)
      by (eapply Qle_lt_trans; eassumption).
    rewrite <- Zlt_Qlt in H3. lia.
  - intros _. reflexivity.
Qed.

(** The range of an axis, when it exists for an integer margin and an
    integer largest index, is a run of integers within [[0, max]]. *)
Lemma axis_range_integers (a b : number) (m max : Z) (l : list number) :
  0 <= max ->
  range (clamp (Math_floor a - of_Z m) (of_Z 0) (of_Z max))
        (clamp (Math_floor b + of_Z m) (of_Z 0) (of_Z max)) = Ok l ->
  exists lo n,
    l = map of_Z (Zseq lo n) /\ 0 <= lo /\ lo + Z.of_nat n <= max + 1.
Proof.
  intros Hmax.
  destruct (Math_floor_ext_int a) as [->|Ha].
  { simpl num_sub. rewrite !clamp_NaN, range_NaN_l. discriminate. }
  destruct (Math_floor_ext_int b) as [->|Hb].
  { simpl num_add. rewrite !clamp_NaN, range_NaN_r. discriminate. }
  rewrite !clamp_Zclamp by auto using ext_int_sub, ext_int_add.
  rewrite range_of_Z.
  destruct (_ && _) eqn:E; [|discriminate]. intros [= <-].
  apply andb_true_iff in E. rewrite Z.leb_le, Z.ltb_lt in E.
  pose proof (Zclamp_bounds (Math_floor a - of_Z m)%num (max := max)) as H1.
  pose proof (Zclamp_bounds (Math_floor b + of_Z m)%num (max := max)) as H2.
  do 2 eexists. split; [reflexivity|]. lia.
Qed.

Lemma NoDup_map_injective {A B} (f : A -> B) (l : list A) :
  (forall x y, In x l -> In y l -> f x = f y -> x = y) ->
  NoDup l -> NoDup (map f l).
Proof.
  intros Hinj Hnd. induction Hnd as [|a l Hni Hnd IH]; simpl; constructor.
  - intros Hin. apply in_map_iff in Hin. destruct Hin as (x & Hfx & Hx).
    assert (x = a) by (apply Hinj; simpl; auto). subst x. contradiction.
  - apply IH. intros x y Hx Hy. apply Hinj; simpl; auto.
Qed.

(** A range never holds a number twice. *)
Lemma range_NoDup (start end_ : number) (l : list number) :
  range start end_ = Ok l -> NoDup l.
Proof.
  unfold range, result_bind.
  destruct (Array_new _) as [n|] eqn:E; [|discriminate]. intros [= <-].
  assert (Hs : exists s, start = Fin s).
  { destruct start as [s| | |]; [eauto| | |];
      destruct end_; simpl in E; discriminate. }
  destruct Hs as (s & ->).
  unfold Array_keys. rewrite map_map. apply NoDup_map_injective.
  - intros i j _ _ H. unfold of_Z, num_add in H. injection H as H.
    apply Qred_eq_iff in H. apply Qplus_inj_l in H.
    rewrite inject_Z_injective in H. lia.
  - apply seq_NoDup.
Qed.

Lemma product_NoDup {A B} (keep : B -> A -> bool)
  (pair : A -> B -> Vec3) (rows : list B) (cols : list A) :
  (forall x y x' y', pair x y = pair x' y' -> x = x' /\ y = y') ->
  NoDup rows -> NoDup cols ->
  NoDup (flat_map (fun y => map (fun x => pair x y) (filter (keep y) cols))
           rows).
Proof.
  intros Hinj Hr Hc. induction Hr as [|y rows Hni Hr IH]; simpl.
  - constructor.
  - apply NoDup_app.
    + apply NoDup_map_injective; [|apply NoDup_filter; exact Hc].
      intros x x' _ _ H. apply Hinj in H. tauto.
    + exact IH.
    + intros v Hv Hv'. apply in_map_iff in Hv. destruct Hv as (x & <- & _).
      apply in_flat_map in Hv'. destruct Hv' as (y' & Hy' & Hv').
      apply in_map_iff in Hv'. destruct Hv' as (x' & Heq & _).
      apply Hinj in Heq. destruct Heq as [_ ->]. contradiction.
Qed.

(** ** Tile ids *)

Lemma number_toString_of_Z (n : Z) : number_toString (of_Z n) = Z_toString n.
Proof.
  unfold number_toString, of_Z. rewrite Qred_inject_Z. reflexivity.
Qed.

Lemma Z_toString_inj (a b : Z) : Z_toString a = Z_toString b -> a = b.
Proof.
  unfold Z_toString. intros H. apply DecimalZ.to_int_inj.
  assert (Hn : forall n, Z.to_int n <> Decimal.Pos Decimal.Nil
                         /\ Z.to_int n <> Decimal.Neg Decimal.Nil).
  { intros [|p|p]; split; try discriminate; intros [= E];
      exact (DecimalPos.Unsigned.to_uint_nonnil p E). }
  assert (E : Some (Z.to_int a) = Some (Z.to_int b)).
  { rewrite <- (NilZero.isi (Z.to_int a)), <- (NilZero.isi (Z.to_int b));
      try apply Hn.
    rewrite H. reflexivity. }
  injection E as E. exact E.
Qed.

Lemma comma_free_uint (d : Decimal.uint) :
  comma_free (NilEmpty.string_of_uint d) = true.
Proof. induction d; simpl; auto. Qed.

Lemma comma_free_Z (n : Z) : comma_free (Z_toString n) = true.
Proof.
  unfold Z_toString, NilZero.string_of_int, NilZero.string_of_uint.
  destruct (Z.to_int n) as [d|d]; destruct d; try reflexivity;
    apply (comma_free_uint (_ d)) || (simpl; apply comma_free_uint).
Qed.

Lemma append_comma_inj (s1 s2 r1 r2 : string) :
  comma_free s1 = true -> comma_free s2 = true ->
  (s1 ++ "," ++ r1)%string = (s2 ++ "," ++ r2)%string ->
  s1 = s2 /\ r1 = r2.
Proof.
  revert s2. induction s1 as [|c s1 IH]; intros [|c' s2] H1 H2 H; simpl in *.
  - injection H as ->. split; reflexivity.
  - injection H as <- _. discriminate H2.
  - injection H as -> _. discriminate H1.
  - injection H as -> H.
    apply andb_true_iff in H1, H2.
    destruct (IH s2 (proj2 H1) (proj2 H2) H) as [-> ->].
    split; reflexivity.
Qed.

Lemma Vec3_toString_inj (x y z x' y' z' : Z) :
  Vec3_toString (of_Z x, of_Z y, of_Z z)
  = Vec3_toString (of_Z x', of_Z y', of_Z z') ->
  x = x' /\ y = y' /\ z = z'.
Proof.
  unfold Vec3_toString. rewrite !number_toString_of_Z. intros H.
  apply append_comma_inj in H; try apply comma_free_Z.
  destruct H as [Hx H].
  apply append_comma_inj in H; try apply comma_free_Z.
  destruct H as [Hy Hz].
  apply Z_toString_inj in Hx, Hy, Hz. auto.
Qed.

Section MoreTiles.

Variable ln_approx : Q -> Q.
Variable pow_approx : Q -> Q -> Q.
Variable geoScaleToZoom : number -> number -> number.
Variable geoZoomToScale : number -> number -> number.
Variable Projection_invert : Projection -> Vec2 -> Vec2.

(** The zoom chosen from an integer zoom range, by what [Math.round] gives
    for the fractional zoom. *)
Lemma getTiles_z_value (this : Tiler) (projection : Projection)
  (min max : Z) :
  _zoomRange this = (of_Z min, of_Z max) ->
  match Math_round (getTiles_zFrac geoScaleToZoom this projection) with
  | NaN => getTiles_z geoScaleToZoom this projection = NaN
  | PInf => getTiles_z geoScaleToZoom this projection = of_Z (Z.max min max)
  | NInf => getTiles_z geoScaleToZoom this projection = of_Z min
  | Fin q =>
      getTiles_z geoScaleToZoom this projection
      = of_Z (Z.max min (Z.min (Qfloor q) max))
  end.
Proof.
  intros Hr. unfold getTiles_z. rewrite Hr. cbn [fst snd].
  destruct (Math_round_ext_int (getTiles_zFrac geoScaleToZoom this projection))
    as [->|H].
  - apply clamp_NaN.
  - destruct H as [n| |]; unfold clamp.
    + rewrite Math_min_of_Z, Math_max_of_Z. unfold of_Z at 1.
      rewrite Qfloor_Z. reflexivity.
    + change (Math_min PInf (of_Z max)) with (of_Z max).
      apply Math_max_of_Z.
    + reflexivity.
Qed.

Lemma getTiles_NaN_z (this : Tiler) (projection : Projection) :
  getTiles_z geoScaleToZoom this projection = NaN ->
  fst (getTiles ln_approx pow_approx geoScaleToZoom geoZoomToScale
         Projection_invert projection this) = Throw RangeError.
Proof.
  intros Hz. rewrite getTiles_unfold. unfold getTiles_cols.
  unfold getTiles_maxTile. rewrite Hz. cbn [Math_pow num_sub].
  rewrite !clamp_hi_NaN, range_NaN_l. reflexivity.
Qed.

(** The zoom of a call that returns, for an integer zoom range. *)
Lemma getTiles_z_integer (this : Tiler) (projection : Projection)
  (min max : Z) (r : TileResult) :
  _zoomRange this = (of_Z min, of_Z max) ->
  fst (getTiles ln_approx pow_approx geoScaleToZoom geoZoomToScale
         Projection_invert projection this) = Ok r ->
  exists z, getTiles_z geoScaleToZoom this projection = of_Z z
            /\ min <= z /\ (min <= max -> z <= max).
Proof.
  intros Hr Hok. pose proof (getTiles_z_value this projection Hr) as Hz.
  destruct (Math_round _) as [q| | |].
  - eexists. split; [exact Hz|]. lia.
  - eexists. split; [exact Hz|]. lia.
  - eexists. split; [exact Hz|]. lia.
  - rewrite (getTiles_NaN_z _ _ Hz) in Hok. discriminate.
Qed.

(** The tiles of a call that returns, for an integer zoom range from 0 up
    and an integer margin: the descriptors the loop body builds for
    integer columns and rows of the world at the zoom chosen. *)
Lemma getTiles_integer_tiles
  (projection : Projection) (this : Tiler) (min max m : Z) (r : TileResult) :
  _zoomRange this = (of_Z min, of_Z max) -> 0 <= min ->
  _margin this = of_Z m ->
  fst (getTiles ln_approx pow_approx geoScaleToZoom geoZoomToScale
         Projection_invert projection this) = Ok r ->
  exists z,
    getTiles_z geoScaleToZoom this projection = of_Z z
    /\ min <= z /\ (min <= max -> z <= max)
    /\ (forall t, In t (tiles r) ->
          exists x y,
            t = getTiles_tile pow_approx geoScaleToZoom geoZoomToScale
                  Projection_invert this projection (of_Z x) (of_Z y)
            /\ 0 <= x <= 2 ^ z - 1 /\ 0 <= y <= 2 ^ z - 1)
    /\ (List.length (tiles r) <= Z.to_nat (4 ^ z))%nat.
Proof.
  intros Hr Hmin Hm Hok.
  destruct (getTiles_z_integer this projection Hr Hok) as (z & Hz & Hz1 & Hz2).
  assert (Hpos : 0 < 2 ^ z) by (apply Z.pow_pos_nonneg; lia).
  assert (HM : getTiles_maxTile pow_approx geoScaleToZoom this projection
               = of_Z (2 ^ z - 1)).
  { unfold getTiles_maxTile. rewrite Hz, Math_pow_2_nonneg by lia.
    apply of_Z_sub. }
  apply getTiles_Ok_inv in Hok.
  destruct Hok as (rows & cols & Hrows & Hcols & Htiles).
  unfold getTiles_rows in Hrows. unfold getTiles_cols in Hcols.
  cbv zeta in Hrows, Hcols. rewrite HM, Hm in Hrows, Hcols.
  apply axis_range_integers in Hrows; [|lia].
  apply axis_range_integers in Hcols; [|lia].
  destruct Hrows as (rlo & rn & -> & Hr1 & Hr2).
  destruct Hcols as (clo & cn & -> & Hc1 & Hc2).
  exists z. split; [exact Hz|]. split; [exact Hz1|]. split; [exact Hz2|].
  split.
  - intros t Ht. rewrite Htiles in Ht. apply getTiles_tiles_inv in Ht.
    destruct Ht as (x & y & Hy & Hx & _ & ->).
    apply in_map_iff in Hx, Hy.
    destruct Hx as (x' & <- & Hx). destruct Hy as (y' & <- & Hy).
    apply Zseq_In in Hx, Hy. exists x', y'. split; [reflexivity|lia].
  - rewrite Htiles, getTiles_loop_length, enumeration_length.
    rewrite flat_map_filter_length_le, !length_map, !Zseq_length.
    change 4 with (2 * 2). rewrite Z.pow_mul_l.
    rewrite Z2Nat.inj_mul by lia. apply Nat.mul_le_mono; lia.
Qed.

(** X4. With an integer zoom range within 0 to 53 and an integer margin,
    every tile [getTiles] returns is a tile of the world at the zoom [z]
    chosen: [x] and [y] are integers in [[0, 2^z - 1]], and [z] is an
    integer no smaller than the range's minimum and, when the range is in
    order, no larger than its maximum; so there are at most [4^z] tiles.
    (Up to zoom 53 the last index [2^z - 1] is below [2^53], and the code
    computes it and the indices exactly.) *)
Theorem getTiles_within_world
  (projection : Projection) (this : Tiler) (min max m : Z) (r : TileResult) :
  _zoomRange this = (of_Z min, of_Z max) ->
  0 <= min -> min <= 53 -> max <= 53 ->
  _margin this = of_Z m ->
  fst (getTiles ln_approx pow_approx geoScaleToZoom geoZoomToScale
         Projection_invert projection this) = Ok r ->
  exists z,
    getTiles_z geoScaleToZoom this projection = of_Z z
    /\ min <= z /\ (min <= max -> z <= max)
    /\ (forall t, In t (tiles r) ->
          exists x y,
            xyz t = (of_Z x, of_Z y, of_Z z)
            /\ 0 <= x <= 2 ^ z - 1 /\ 0 <= y <= 2 ^ z - 1)
    /\ (List.length (tiles r) <= Z.to_nat (4 ^ z))%nat.
Proof.
  intros Hr Hmin _ _ Hm Hok.
  destruct (getTiles_integer_tiles projection this Hr Hmin Hm Hok)
    as (z & Hz & Hz1 & Hz2 & Hin & Hlen).
  exists z. split; [exact Hz|]. split; [exact Hz1|]. split; [exact Hz2|].
  split; [|exact Hlen].
  intros t Ht. destruct (Hin t Ht) as (x & y & -> & Hx & Hy).
  exists x, y. split; [|split; assumption].
  unfold getTiles_tile. cbn [xyz]. rewrite Hz. reflexivity.
Qed.

(** X9. With an integer zoom range within 0 to 53 and an integer margin,
    the id of every tile [getTiles] returns is the decimal rendering
    [x,y,z] of its three integer indices, and ids are keys: two tiles of a
    result with the same id are the same tile. *)
Theorem getTiles_ids
  (projection : Projection) (this : Tiler) (min max m : Z) (r : TileResult) :
  _zoomRange this = (of_Z min, of_Z max) ->
  0 <= min -> min <= 53 -> max <= 53 ->
  _margin this = of_Z m ->
  fst (getTiles ln_approx pow_approx geoScaleToZoom geoZoomToScale
         Projection_invert projection this) = Ok r ->
  (forall t, In t (tiles r) ->
     exists x y z,
       xyz t = (of_Z x, of_Z y, of_Z z)
       /\ id t = (Z_toString x ++ "," ++ Z_toString y ++ ","
                  ++ Z_toString z)%string)
  /\ (forall t t', In t (tiles r) -> In t' (tiles r) ->
                   id t = id t' -> t = t').
Proof.
  intros Hr Hmin _ _ Hm Hok.
  destruct (getTiles_integer_tiles projection this Hr Hmin Hm Hok)
    as (z & Hz & _ & _ & Hin & _).
  assert (Hid : forall x y,
             id (getTiles_tile pow_approx geoScaleToZoom geoZoomToScale
                   Projection_invert this projection (of_Z x) (of_Z y))
             = Vec3_toString (of_Z x, of_Z y, of_Z z)).
  { intros x y. unfold getTiles_tile. cbn [id]. rewrite Hz. reflexivity. }
  split.
  - intros t Ht. destruct (Hin t Ht) as (x & y & -> & _ & _).
    exists x, y, z. split.
    + unfold getTiles_tile. cbn [xyz]. rewrite Hz. reflexivity.
    + rewrite Hid. unfold Vec3_toString.
      rewrite !number_toString_of_Z. reflexivity.
  - intros t t' Ht Ht' Heq.
    destruct (Hin t Ht) as (x & y & -> & _ & _).
    destruct (Hin t' Ht') as (x' & y' & -> & _ & _).
    rewrite !Hid in Heq. apply Vec3_toString_inj in Heq.
    destruct Heq as (-> & -> & _). reflexivity.
Qed.

(** X5. With an integer zoom range up to 53 and an integer margin,
    [getTiles] never returns a tile twice: the [xyz] triples of a result
    are pairwise different.  (Up to zoom 53 the indices are below [2^53],
    where [start + v] gives a different number for every [v].) *)
Theorem getTiles_NoDup
  (projection : Projection) (this : Tiler) (min max m : Z) (r : TileResult) :
  _zoomRange this = (of_Z min, of_Z max) -> min <= 53 -> max <= 53 ->
  _margin this = of_Z m ->
  fst (getTiles ln_approx pow_approx geoScaleToZoom geoZoomToScale
         Projection_invert projection this) = Ok r ->
  NoDup (map xyz (tiles r)).
Proof.
  intros _ _ _ _ Hok. apply getTiles_Ok_inv in Hok.
  destruct Hok as (rows & cols & Hrows & Hcols & Htiles).
  apply range_NoDup in Hrows, Hcols.
  rewrite Htiles, getTiles_loop_enumeration.
  eapply Permutation_NoDup.
  - symmetry. apply Permutation_map. apply filter_split_Permutation.
  - rewrite enumeration_xyz.
    apply (product_NoDup
             (fun y x =>
                negb (skipped pow_approx geoScaleToZoom this projection x y))
             (fun x y => (x, y, getTiles_z geoScaleToZoom this projection)));
      [|assumption|assumption].
    intros x y x' y' H. injection H as -> ->. split; reflexivity.
Qed.

(** X6. The zoom [getTiles] chooses from an integer zoom range
    [min <= max]: a fractional zoom below [min] gives tiles at [min], and
    one that rounds to an integer within the range gives tiles at that
    integer. *)
Theorem getTiles_zoom_selected
  (projection : Projection) (this : Tiler) (min max : Z) (r : TileResult) :
  _zoomRange this = (of_Z min, of_Z max) -> min <= max ->
  fst (getTiles ln_approx pow_approx geoScaleToZoom geoZoomToScale
         Projection_invert projection this) = Ok r ->
  ((geoScaleToZoom (scale projection) (_tileSize this) <? of_Z min)%num
   = true ->
   forall t, In t (tiles r) -> snd (xyz t) = of_Z min)
  /\ (forall n : Z,
        Math_round (geoScaleToZoom (scale projection) (_tileSize this))
        = of_Z n ->
        min <= n <= max ->
        forall t, In t (tiles r) -> snd (xyz t) = of_Z n).
Proof.
  intros Hr Hle Hok. apply getTiles_Ok_inv in Hok.
  destruct Hok as (rows & cols & _ & _ & Htiles).
  assert (Hz : forall t, In t (tiles r) ->
               snd (xyz t) = getTiles_z geoScaleToZoom this projection).
  { intros t Ht. rewrite Htiles in Ht. apply getTiles_tiles_inv in Ht.
    destruct Ht as (x & y & _ & _ & _ & ->). reflexivity. }
  split.
  - intros Hlow t Ht. rewrite (Hz t Ht).
    unfold getTiles_z, getTiles_zFrac, clamp. rewrite Hr. cbn [fst snd].
    assert (Hmin : Math_min
                     (Math_round
                        (geoScaleToZoom (scale projection) (_tileSize this)))
                     (of_Z max)
                   = Math_round
                       (geoScaleToZoom (scale projection) (_tileSize this))).
    { destruct (geoScaleToZoom (scale projection) (_tileSize this))
        as [q| | |]; try discriminate Hlow; [|reflexivity].
      simpl Math_round. rewrite Math_min_of_Z. f_equal.
      pose proof (Math_round_below min (Fin q) Hlow) as Hb.
      simpl Math_round in Hb. rewrite Math_max_of_Z in Hb.
      unfold of_Z, inject_Z in Hb. injection Hb as Hb. lia. }
    rewrite Hmin. apply Math_round_below. exact Hlow.
  - intros n Hn Hin t Ht. rewrite (Hz t Ht).
    unfold getTiles_z, getTiles_zFrac, clamp. rewrite Hr, Hn. cbn [fst snd].
    rewrite Math_min_of_Z, Math_max_of_Z. f_equal. lia.
Qed.

(** X7. A NaN among the numbers the zoom and the ranges are computed from
    makes [getTiles] raise a RangeError: a fractional zoom that is NaN (as
    for a negative scale), a zoom range with a NaN bound, or a NaN
    margin. *)
Theorem getTiles_NaN_raises (projection : Projection) (this : Tiler) :
  geoScaleToZoom (scale projection) (_tileSize this) = NaN
  \/ fst (_zoomRange this) = NaN
  \/ snd (_zoomRange this) = NaN
  \/ _margin this = NaN ->
  fst (getTiles ln_approx pow_approx geoScaleToZoom geoZoomToScale
         Projection_invert projection this) = Throw RangeError.
Proof.
  intros [H|[H|[H|H]]].
  - apply getTiles_NaN_z. unfold getTiles_z, getTiles_zFrac. rewrite H.
    apply clamp_NaN.
  - apply getTiles_NaN_z. unfold getTiles_z, clamp, Math_max. rewrite H.
    reflexivity.
  - apply getTiles_NaN_z. unfold getTiles_z. rewrite H. apply clamp_hi_NaN.
  - rewrite getTiles_unfold. unfold getTiles_cols. rewrite H.
    assert (E : forall v, (v - NaN)%num = NaN) by (intros []; reflexivity).
    rewrite E, clamp_NaN, range_NaN_l. reflexivity.
Qed.

(** X23. [zoomRange(n)] with a single integer fixes the zoom: every tile a
    following [getTiles] returns is a tile of zoom [n], whatever the scale
    of the projection. *)
Theorem getTiles_single_zoom
  (projection : Projection) (this : Tiler) (n : Z) (r : TileResult) :
  fst (getTiles ln_approx pow_approx geoScaleToZoom geoZoomToScale
         Projection_invert projection
         (snd (zoomRange (Some (of_Z n)) None this))) = Ok r ->
  forall t, In t (tiles r) -> snd (xyz t) = of_Z n.
Proof.
  intros Hok t Ht.
  destruct (@getTiles_z_integer (snd (zoomRange (Some (of_Z n)) None this))
              projection n n r eq_refl Hok) as (z & Hz & H1 & H2).
  apply getTiles_Ok_inv in Hok.
  destruct Hok as (rows & cols & _ & _ & Htiles).
  rewrite Htiles in Ht. apply getTiles_tiles_inv in Ht.
  destruct Ht as (x & y & _ & _ & _ & ->).
  unfold getTiles_tile. cbn [xyz snd]. rewrite Hz. f_equal. lia.
Qed.

End MoreTiles.

Lemma filter_filter_comm {A} (f g : A -> bool) (l : list A) :
  filter f (filter g l) = filter g (filter f l).
Proof.
  induction l as [|a l IH]; simpl; [reflexivity|].
  destruct (f a) eqn:Ef, (g a) eqn:Eg; simpl;
    rewrite ?Ef, ?Eg, IH; reflexivity.
Qed.

Lemma filter_flat_map_map {A B C} (f : C -> bool) (g : A -> B -> C)
  (rows : list B) (cols : list A) :
  filter f (flat_map (fun y => map (fun x => g x y) cols) rows)
  = flat_map
      (fun y => map (fun x => g x y) (filter (fun x => f (g x y)) cols))
      rows.
Proof.
  induction rows as [|y rows IH]; simpl; [reflexivity|].
  rewrite filter_app, IH. f_equal. apply filter_map_swap.
Qed.

Section Skipping.

Variable ln_approx : Q -> Q.
Variable pow_approx : Q -> Q -> Q.
Variable geoScaleToZoom : number -> number -> number.
Variable geoZoomToScale : number -> number -> number.
Variable Projection_invert : Projection -> Vec2 -> Vec2.

Lemma skipped_on (this : Tiler) (projection : Projection) (x y : number) :
  skipped pow_approx geoScaleToZoom (snd (skipNullIsland (Some true) this))
    projection x y
  = isNearNullIsland pow_approx x y
      (getTiles_z geoScaleToZoom this projection).
Proof. reflexivity. Qed.

Lemma skipped_off (this : Tiler) (projection : Projection) (x y : number) :
  skipped pow_approx geoScaleToZoom (snd (skipNullIsland (Some false) this))
    projection x y
  = false.
Proof. reflexivity. Qed.

Lemma getTiles_tile_skip (this : Tiler) (projection : Projection)
  (b : bool) (x y : number) :
  getTiles_tile pow_approx geoScaleToZoom geoZoomToScale Projection_invert
    (snd (skipNullIsland (Some b) this)) projection x y
  = getTiles_tile pow_approx geoScaleToZoom geoZoomToScale Projection_invert
      this projection x y.
Proof. reflexivity. Qed.

Lemma enumeration_skip (this : Tiler) (projection : Projection)
  (rows cols : list number) :
  enumeration pow_approx geoScaleToZoom geoZoomToScale Projection_invert
    (snd (skipNullIsland (Some true) this)) projection rows cols
  = filter
      (fun t =>
         negb (isNearNullIsland pow_approx (fst (fst (xyz t)))
                 (snd (fst (xyz t))) (snd (xyz t))))
      (enumeration pow_approx geoScaleToZoom geoZoomToScale
         Projection_invert (snd (skipNullIsland (Some false) this))
         projection rows cols).
Proof.
  unfold enumeration. induction rows as [|y rows IH]; [reflexivity|].
  cbn [flat_map]. rewrite filter_app, <- IH. f_equal.
  clear IH. induction cols as [|x cols IH]; [reflexivity|].
  cbn [filter]. rewrite skipped_on, skipped_off. cbn [negb map filter].
  rewrite !getTiles_tile_skip.
  change (xyz (getTiles_tile pow_approx geoScaleToZoom geoZoomToScale
                 Projection_invert this projection x y))
    with (x, y, getTiles_z geoScaleToZoom this projection).
  cbn [fst snd].
  destruct (isNearNullIsland pow_approx x y _); cbn [negb map];
    rewrite IH; reflexivity.
Qed.

(** X8. Switching [skipNullIsland] on removes the tiles near Null Island
    from the result and changes nothing else: the result with the flag set
    is the result with the flag cleared without the tiles near Null
    Island, the others in the same order, and the call returns with the
    flag set whenever it returns with the flag cleared. *)
Theorem getTiles_skip_filters
  (projection : Projection) (this : Tiler) (r : TileResult) :
  fst (getTiles ln_approx pow_approx geoScaleToZoom geoZoomToScale
         Projection_invert projection
         (snd (skipNullIsland (Some false) this))) = Ok r ->
  exists r',
    fst (getTiles ln_approx pow_approx geoScaleToZoom geoZoomToScale
           Projection_invert projection
           (snd (skipNullIsland (Some true) this))) = Ok r'
    /\ tiles r'
       = filter
           (fun t =>
              negb (isNearNullIsland pow_approx (fst (fst (xyz t)))
                      (snd (fst (xyz t))) (snd (xyz t))))
           (tiles r).
Proof.
  intros Hok. apply getTiles_Ok_inv in Hok.
  destruct Hok as (rows & cols & Hrows & Hcols & Htiles).
  eexists. split.
  - rewrite getTiles_unfold.
    change (getTiles_cols ln_approx pow_approx geoScaleToZoom
              (snd (skipNullIsland (Some true) this)) projection)
      with (getTiles_cols ln_approx pow_approx geoScaleToZoom
              (snd (skipNullIsland (Some false) this)) projection).
    change (getTiles_rows ln_approx pow_approx geoScaleToZoom
              (snd (skipNullIsland (Some true) this)) projection)
      with (getTiles_rows ln_approx pow_approx geoScaleToZoom
              (snd (skipNullIsland (Some false) this)) projection).
    rewrite Hcols, Hrows. reflexivity.
  - cbn [tiles]. rewrite Htiles, !getTiles_loop_enumeration.
    rewrite filter_app, filter_rev.
    rewrite (filter_filter_comm _ isVisible).
    rewrite (filter_filter_comm _ (fun t => negb (isVisible t))).
    rewrite enumeration_skip. reflexivity.
Qed.

(** X10. With [skipNullIsland] off and integer bounds below [2^53] in
    magnitude, [clo], [chi] for the columns and [rlo], [rhi] for the rows,
    a call that returns gives exactly [(chi - clo + 1) * (rhi - rlo + 1)]
    tiles, one for each column of each row. *)
Theorem getTiles_count
  (projection : Projection) (this : Tiler) (r : TileResult)
  (clo chi rlo rhi : Z) :
  _skipNullIsland this = false ->
  getTiles_colBounds ln_approx pow_approx geoScaleToZoom this projection
  = (of_Z clo, of_Z chi) ->
  getTiles_rowBounds ln_approx pow_approx geoScaleToZoom this projection
  = (of_Z rlo, of_Z rhi) ->
  safe_integer clo -> safe_integer chi ->
  safe_integer rlo -> safe_integer rhi ->
  fst (getTiles ln_approx pow_approx geoScaleToZoom geoZoomToScale
         Projection_invert projection this) = Ok r ->
  Z.of_nat (List.length (tiles r)) = (chi - clo + 1) * (rhi - rlo + 1)
  /\ clo <= chi + 1 /\ rlo <= rhi + 1.
Proof.
  intros Hskip Hc Hr _ _ _ _ Hok. apply getTiles_Ok_inv in Hok.
  destruct Hok as (rows & cols & Hrows & Hcols & Htiles).
  rewrite getTiles_rows_bounds, Hr in Hrows.
  rewrite getTiles_cols_bounds, Hc in Hcols.
  cbn [fst snd] in Hrows, Hcols. rewrite range_of_Z in Hrows, Hcols.
  destruct ((0 <=? rhi - rlo + 1) && _) eqn:Er; [|discriminate].
  destruct ((0 <=? chi - clo + 1) && _) eqn:Ec; [|discriminate].
  injection Hrows as <-. injection Hcols as <-.
  apply andb_true_iff in Er, Ec. rewrite Z.leb_le, Z.ltb_lt in Er, Ec.
  rewrite Htiles, getTiles_loop_length, enumeration_length.
  unfold skipped. rewrite Hskip. cbn [andb].
  rewrite (flat_map_length_const _ _
             (n := List.length
                     (map of_Z (Zseq clo (Z.to_nat (chi - clo + 1))))))
    by (intros; rewrite filter_all; reflexivity).
  rewrite !length_map, !Zseq_length. split; [nia|lia].
Qed.

End Skipping.

(** X11. The square near Null Island is the same region from zoom to
    zoom: at an integer zoom from 7 to 52, a tile is near Null Island if
    and only if each of its four children at the next zoom is.  (Up to
    zoom 53 the code computes the ends of the square exactly.) *)
Theorem isNearNullIsland_children
  (pow_approx : Q -> Q -> Q) (x y z i j : Z) :
  7 <= z <= 52 -> 0 <= i <= 1 -> 0 <= j <= 1 ->
  isNearNullIsland pow_approx (of_Z (2 * x + i)) (of_Z (2 * y + j))
    (of_Z (z + 1))
  = isNearNullIsland pow_approx (of_Z x) (of_Z y) (of_Z z).
Proof.
  intros Hz Hi Hj. rewrite !isNearNullIsland_bounds by lia.
  unfold num_ge. rewrite !of_Z_le.
  replace (z + 1 - 1) with (Z.succ (z - 1)) by lia.
  replace (z + 1 - 7) with (Z.succ (z - 7)) by lia.
  rewrite !Z.pow_succ_r by lia.
  generalize (2 ^ (z - 1)) (2 ^ (z - 7)). intros a b.
  repeat match goal with
    | |- context [?u <=? ?v] => destruct (Z.leb_spec u v)
    end; simpl; try reflexivity; lia.
Qed.

(** ** Accessors and the debugging export *)

(** X12. The four accessors store what they are given and give back what
    is stored: after a setter call the matching getter returns the value
    set, the other three fields are as before, and a getter leaves the
    Tiler unchanged.  [zoomRange] called without [min] is a getter even
    when [max] is given. *)
Theorem accessors_set_get (this : Tiler) (size m lo hi : number) (skip : bool) :
  let sized := snd (tileSize (Some size) this) in
  let ranged := snd (zoomRange (Some lo) (Some hi) this) in
  let margined := snd (margin (Some m) this) in
  let skipping := snd (skipNullIsland (Some skip) this) in
  (tileSize None sized = (Ok (Value size), sized)
   /\ _zoomRange sized = _zoomRange this
   /\ _margin sized = _margin this
   /\ _skipNullIsland sized = _skipNullIsland this)
  /\ (zoomRange None None ranged = (Ok (Value (lo, hi)), ranged)
      /\ zoomRange None (Some hi) this = (Ok (Value (_zoomRange this)), this)
      /\ _tileSize ranged = _tileSize this
      /\ _margin ranged = _margin this
      /\ _skipNullIsland ranged = _skipNullIsland this)
  /\ (margin None margined = (Ok (Value m), margined)
      /\ _tileSize margined = _tileSize this
      /\ _zoomRange margined = _zoomRange this
      /\ _skipNullIsland margined = _skipNullIsland this)
  /\ (skipNullIsland None skipping = (Ok (Value skip), skipping)
      /\ _tileSize skipping = _tileSize this
      /\ _zoomRange skipping = _zoomRange this
      /\ _margin skipping = _margin this).
Proof. repeat split. Qed.

(** X13. [getGeoJSON] returns a FeatureCollection with one Feature for
    each tile, in the order of the tiles: its [id] and [name] are the id of
    the tile and its geometry is a Polygon with a single ring, the polygon
    of the tile's geographic extent.  The Tiler is left unchanged. *)
Theorem getGeoJSON_features
  (Extent_polygon : Extent -> list Vec2) (tileResult : TileResult)
  (this : Tiler) :
  exists collection,
    getGeoJSON Extent_polygon tileResult this = (Ok collection, this)
    /\ collection_type collection = "FeatureCollection"%string
    /\ List.length (features collection) = List.length (tiles tileResult)
    /\ forall i tile,
         nth_error (tiles tileResult) i = Some tile ->
         exists feature,
           nth_error (features collection) i = Some feature
           /\ feature_type feature = "Feature"%string
           /\ properties_id (properties feature) = id tile
           /\ properties_name (properties feature) = id tile
           /\ geometry_type (geometry feature) = "Polygon"%string
           /\ coordinates (geometry feature)
              = [Extent_polygon (wgs84Extent tile)].
Proof.
  eexists. split; [reflexivity|]. cbn [collection_type features].
  split; [reflexivity|]. split; [apply length_map|].
  intros i tile Hi. eexists. split.
  - rewrite nth_error_map, Hi. reflexivity.
  - repeat split.
Qed.

(** ** The vector module *)

Lemma num_add_comm (a b : number) : (a + b)%num = (b + a)%num.
Proof.
  destruct a, b; simpl; try reflexivity.
  f_equal. apply Qred_complete. apply Qplus_comm.
Qed.

Lemma num_mul_comm (a b : number) : (a * b)%num = (b * a)%num.
Proof.
  destruct a, b; simpl; try reflexivity.
  f_equal. apply Qred_complete. apply Qmult_comm.
Qed.

Lemma num_eq_sym (a b : number) : num_eq a b = num_eq b a.
Proof.
  destruct a as [x| | |], b as [y| | |]; simpl; try reflexivity.
  destruct (Qeq_bool x y) eqn:E, (Qeq_bool y x) eqn:E'; try reflexivity.
  - apply Qeq_bool_iff in E. symmetry in E. apply Qeq_bool_iff in E.
    congruence.
  - apply Qeq_bool_iff in E'. symmetry in E'. apply Qeq_bool_iff in E'.
    congruence.
Qed.

Lemma Math_abs_sub_le_sym (a b e : number) :
  (Math_abs (a - b) <=? e)%num = (Math_abs (b - a) <=? e)%num.
Proof.
  destruct a as [x| | |], b as [y| | |]; simpl; try reflexivity.
  destruct e as [q| | |]; simpl; try reflexivity.
  assert (E : (Qabs (Qred (x - y)) == Qabs (Qred (y - x)))%Q).
  { rewrite !Qred_correct. rewrite <- (Qabs_opp (x - y)).
    apply Qabs_wd. ring. }
  destruct (Qle_bool (Qabs (Qred (x - y))) q) eqn:E1,
           (Qle_bool (Qabs (Qred (y - x))) q) eqn:E2; try reflexivity.
  - apply Qle_bool_iff in E1. rewrite E in E1. apply Qle_bool_iff in E1.
    congruence.
  - apply Qle_bool_iff in E2. rewrite <- E in E2. apply Qle_bool_iff in E2.
    congruence.
Qed.

Lemma Qred_zero (q : Q) : (q == 0)%Q -> Qred q = 0%Q.
Proof. intros H. exact (@Qred_of_int q 0 H). Qed.

Lemma num_lt_trans (a b c : number) :
  (a <? b)%num = true -> (b <? c)%num = true -> (a <? c)%num = true.
Proof.
  destruct a, b, c; try discriminate; try reflexivity.
  rewrite !num_lt_Fin. apply Qlt_trans.
Qed.

Lemma num_le_lt_trans (a b c : number) :
  (a <=? b)%num = true -> (b <? c)%num = true -> (a <? c)%num = true.
Proof.
  destruct a, b, c; try discriminate; try reflexivity.
  rewrite num_le_Fin, !num_lt_Fin. apply Qle_lt_trans.
Qed.

Section VectorProperties.

Variable sqrt_approx : Q -> Q.

(** X14. [vecEqual] is symmetric in its two vectors, whatever the
    threshold; without a threshold, or with a threshold of 0 or NaN, it is
    the component-wise [===]; and a vector of finite numbers equals itself
    exactly when the threshold is missing, 0, NaN or positive -- with a
    negative threshold nothing is equal to anything. *)
Theorem vecEqual_properties :
  (forall a b epsilon, vecEqual a b epsilon = vecEqual b a epsilon)
  /\ (forall a b epsilon,
        epsilon = None \/ epsilon = Some (of_Z 0) \/ epsilon = Some NaN ->
        vecEqual a b epsilon
        = num_eq (fst a) (fst b) && num_eq (snd a) (snd b))
  /\ (forall (x y : Q) epsilon,
        vecEqual (Fin x, Fin y) (Fin x, Fin y) epsilon
        = match epsilon with
          | Some e => negb (e <? of_Z 0)%num
          | None => true
          end)
  /\ (forall a b e,
        (e <? of_Z 0)%num = true -> vecEqual a b (Some e) = false).
Proof.
  split; [|split; [|split]].
  - intros a b epsilon. unfold vecEqual.
    rewrite (num_eq_sym (fst a)), (num_eq_sym (snd a)).
    destruct epsilon as [e|]; [|reflexivity].
    rewrite (Math_abs_sub_le_sym (fst a)), (Math_abs_sub_le_sym (snd a)).
    reflexivity.
  - intros a b epsilon [->|[->| ->]]; reflexivity.
  - intros x y epsilon.
    assert (Hx : forall q : Q, Qeq_bool q q = true)
      by (intros q; apply Qeq_bool_iff; reflexivity).
    assert (Hz : forall q : Q, Qabs (Qred (q - q)%Q) = 0%Q).
    { intros q. rewrite (@Qred_zero (q - q)%Q) by ring. reflexivity. }
    destruct epsilon as [[e| | |]|]; unfold vecEqual, truthy;
      cbn [fst snd num_sub Math_abs num_eq num_le num_lt negb andb of_Z];
      rewrite ?Hx, ?Hz; try reflexivity.
    change (inject_Z 0) with 0%Q.
    destruct (Qeq_bool e 0) eqn:E; cbn [negb].
    + apply Qeq_bool_iff in E.
      assert (H : Qle_bool 0 e = true) by (apply Qle_bool_iff; lra).
      rewrite H. reflexivity.
    + rewrite negb_involutive, andb_diag. reflexivity.
  - intros a b e He. unfold vecEqual.
    assert (Ht : truthy e = true).
    { destruct e as [q| | |]; try discriminate; [|reflexivity].
      apply num_lt_Fin in He. simpl. apply negb_true_iff.
      apply not_true_is_false. intros H. apply Qeq_bool_iff in H.
      change (inject_Z 0) with 0%Q in He. lra. }
    rewrite Ht.
    assert (Hn : forall v, (Math_abs v <=? e)%num = false).
    { intros v. destruct e as [q| | |]; try discriminate.
      - apply num_lt_Fin in He. change (inject_Z 0) with 0%Q in He.
        destruct v as [u| | |]; simpl; try reflexivity.
        apply not_true_is_false. intros H. apply Qle_bool_iff in H.
        pose proof (Qabs_nonneg u). lra.
      - destruct v; reflexivity. }
    rewrite Hn. reflexivity.
Qed.

(** X15. [vecAdd], [vecDot] and [vecNormalizedDot] do not depend on the
    order of their two vectors. *)
Theorem vecAdd_vecDot_commute (a b : Vec2) (origin : option Vec2) :
  vecAdd a b = vecAdd b a
  /\ vecDot a b origin = vecDot b a origin
  /\ vecNormalizedDot sqrt_approx a b origin
     = vecNormalizedDot sqrt_approx b a origin.
Proof.
  assert (Hdot : forall p q o, vecDot p q o = vecDot q p o).
  { intros p q o. unfold vecDot.
    rewrite (num_mul_comm (fst (vecSubtract p _))),
      (num_mul_comm (snd (vecSubtract p _))).
    reflexivity. }
  split; [|split].
  - unfold vecAdd. rewrite (num_add_comm (fst a)), (num_add_comm (snd a)).
    reflexivity.
  - apply Hdot.
  - unfold vecNormalizedDot. apply Hdot.
Qed.

Lemma num_sub_flip (u w : number) :
  (of_Z 0 <? u - w)%num = (w - u <? of_Z 0)%num.
Proof.
  destruct u as [x| | |], w as [y| | |]; try reflexivity.
  unfold num_sub, of_Z. change (inject_Z 0) with 0%Q.
  destruct (Fin 0 <? Fin (Qred (x - y)))%num eqn:E1,
           (Fin (Qred (y - x)) <? Fin 0)%num eqn:E2; try reflexivity.
  - apply num_lt_Fin in E1. apply num_lt_Fin_false in E2.
    rewrite Qred_correct in E1, E2. lra.
  - apply num_lt_Fin_false in E1. apply num_lt_Fin in E2.
    rewrite Qred_correct in E1, E2. lra.
Qed.

Lemma num_sub_sub_zero (a o : number) : (a - o - of_Z 0)%num = (a - o)%num.
Proof.
  destruct a as [x| | |], o as [y| | |]; try reflexivity.
  unfold num_sub, of_Z. f_equal.
  rewrite <- (Qred_complete (x - y) (Qred (x - y) - inject_Z 0));
    [reflexivity|].
  rewrite Qred_correct. change (inject_Z 0) with 0%Q. ring.
Qed.

Lemma num_sub_zero_flip (u w : number) :
  num_eq (u - w)%num (of_Z 0) = num_eq (w - u)%num (of_Z 0).
Proof.
  destruct u as [x| | |], w as [y| | |]; try reflexivity.
  unfold num_sub, of_Z. change (inject_Z 0) with 0%Q.
  destruct (num_eq (Fin (Qred (x - y))) (Fin 0)) eqn:E1,
           (num_eq (Fin (Qred (y - x))) (Fin 0)) eqn:E2; try reflexivity.
  - apply num_eq_Fin in E1. rewrite Qred_correct in E1.
    assert (H : num_eq (Fin (Qred (y - x))) (Fin 0) = true)
      by (apply num_eq_Fin; rewrite Qred_correct; lra).
    congruence.
  - apply num_eq_Fin in E2. rewrite Qred_correct in E2.
    assert (H : num_eq (Fin (Qred (x - y))) (Fin 0) = true)
      by (apply num_eq_Fin; rewrite Qred_correct; lra).
    congruence.
Qed.

(** X16. [vecCross] changes sign when its two vectors are exchanged: the
    turn from [a] to [b] about the origin is counter-clockwise (a positive
    cross product) exactly when the turn from [b] to [a] is clockwise (a
    negative one), and the one is 0 exactly when the other is. *)
Theorem vecCross_orientation (a b : Vec2) (origin : option Vec2) :
  (of_Z 0 <? vecCross a b origin)%num = (vecCross b a origin <? of_Z 0)%num
  /\ (vecCross a b origin <? of_Z 0)%num
     = (of_Z 0 <? vecCross b a origin)%num
  /\ num_eq (vecCross a b origin) (of_Z 0)
     = num_eq (vecCross b a origin) (of_Z 0).
Proof.
  unfold vecCross.
  rewrite (num_mul_comm (fst (vecSubtract b _))),
    (num_mul_comm (snd (vecSubtract b _))).
  split; [|split].
  - apply num_sub_flip.
  - symmetry. apply num_sub_flip.
  - apply num_sub_zero_flip.
Qed.

(** X17. An origin given to [vecDot], [vecCross] or [vecLength] is
    subtracted from the vectors first: the result is that of the function
    without an origin on the vectors [vecSubtract] gives. *)
Theorem origin_is_subtracted (a b o : Vec2) :
  vecDot a b (Some o) = vecDot (vecSubtract a o) (vecSubtract b o) None
  /\ vecCross a b (Some o)
     = vecCross (vecSubtract a o) (vecSubtract b o) None
  /\ vecLength sqrt_approx a (Some o)
     = vecLength sqrt_approx (vecSubtract a o) None.
Proof.
  unfold vecDot, vecCross, vecLength, vecSubtract, or_origin.
  cbn [fst snd]. rewrite !num_sub_sub_zero. repeat split.
Qed.

(** X18. [vecNormalize] does not divide by zero: the zero vector is
    returned as it is, [[0, 0]]; and the length from a point with finite
    coordinates to itself is 0. *)
Theorem zero_length (x y : Q) :
  ((x == 0)%Q -> (y == 0)%Q ->
   vecNormalize sqrt_approx (Fin x, Fin y) = (of_Z 0, of_Z 0))
  /\ vecLength sqrt_approx (Fin x, Fin y) (Some (Fin x, Fin y)) = of_Z 0.
Proof.
  split.
  - intros Hx Hy. unfold vecNormalize. cbn [fst snd num_mul num_add].
    rewrite (@Qred_zero (x * x)%Q) by (rewrite Hx; ring).
    rewrite (@Qred_zero (y * y)%Q) by (rewrite Hy; ring).
    reflexivity.
  - unfold vecLength, or_origin. cbn [fst snd num_sub num_mul num_add].
    rewrite !(@Qred_zero (_ - _)%Q) by ring. reflexivity.
Qed.

Lemma num_lt_irrefl (a : number) : (a <? a)%num = false.
Proof.
  destruct a as [q| | |]; try reflexivity.
  apply num_lt_Fin_false. apply Qle_refl.
Qed.

Lemma num_lt_PInf (a b : number) :
  (a <? b)%num = true -> (a <? PInf)%num = true.
Proof. destruct a, b; try discriminate; reflexivity. Qed.

(** The loop of [vecProject] keeps its locals describing the nearest
    segment so far, the first one among equals. *)
Lemma vecProject_loop_invariant (a : Vec2) (points : list Vec2) :
  forall (rest : list Vec2) (i : nat) (st : vecProject_state),
    (forall j, nth_error rest j = nth_error points (i + j)) ->
    projected sqrt_approx a points i st ->
    nearest sqrt_approx a points i st ->
    projected sqrt_approx a points (i + (List.length rest - 1))
      (vecProject_loop sqrt_approx a rest i st)
    /\ nearest sqrt_approx a points (i + (List.length rest - 1))
         (vecProject_loop sqrt_approx a rest i st).
Proof.
  induction rest as [|o rest IH]; intros i st Hnth Hp Hn.
  { simpl. rewrite Nat.add_0_r. auto. }
  destruct rest as [|n rest].
  { simpl. rewrite Nat.add_0_r. auto. }
  assert (Ho : nth_error points i = Some o).
  { rewrite <- (Nat.add_0_r i). rewrite <- Hnth. reflexivity. }
  assert (Hn' : nth_error points (S i) = Some n).
  { replace (S i) with (i + 1)%nat by lia. rewrite <- Hnth. reflexivity. }
  change (vecProject_loop sqrt_approx a (o :: n :: rest) i st)
    with (vecProject_loop sqrt_approx a (n :: rest) (S i)
            (vecProject_body sqrt_approx a o n i st)).
  replace (i + (List.length (o :: n :: rest) - 1))%nat
    with (S i + (List.length (n :: rest) - 1))%nat by (simpl; lia).
  apply IH.
  - intros j. replace (S i + j)%nat with (i + S j)%nat by lia.
    rewrite <- Hnth. reflexivity.
  - unfold vecProject_body.
    fold (vecProject_dist sqrt_approx a o n).
    destruct (vecProject_dist sqrt_approx a o n <? st_min st)%num eqn:E.
    + unfold projected. cbn [st_idx st_target st_min].
      split; [lia|]. exists o, n.
      replace (i + 1 - 1)%nat with i by lia.
      replace (i + 1)%nat with (S i) by lia.
      repeat split; try assumption. eapply num_lt_PInf. exact E.
    + unfold projected in *.
      destruct (st_idx st) as [k|], (st_target st) as [p|]; try assumption.
      destruct Hp as [Hk Hp]. split; [lia|exact Hp].
  - unfold vecProject_body.
    fold (vecProject_dist sqrt_approx a o n).
    destruct (vecProject_dist sqrt_approx a o n <? st_min st)%num eqn:E.
    + intros j o' n' Hj Ho' Hn''. cbn [st_min st_idx].
      destruct (Nat.eq_dec j i) as [->|Hne].
      * rewrite Ho in Ho'. rewrite Hn' in Hn''.
        injection Ho' as <-. injection Hn'' as <-.
        split; [apply num_lt_irrefl|]. intros k [= <-] Hlt. lia.
      * destruct (Hn j o' n' ltac:(lia) Ho' Hn'') as [Hlt _]. split.
        -- destruct (vecProject_dist sqrt_approx a o' n'
                     <? vecProject_dist sqrt_approx a o n)%num eqn:E';
             [|reflexivity].
           rewrite (num_lt_trans _ _ _ E' E) in Hlt. discriminate.
        -- intros k _ _.
           destruct (vecProject_dist sqrt_approx a o' n'
                     <=? vecProject_dist sqrt_approx a o n)%num eqn:E';
             [|reflexivity].
           rewrite (num_le_lt_trans _ _ _ E' E) in Hlt. discriminate.
    + intros j o' n' Hj Ho' Hn''.
      destruct (Nat.eq_dec j i) as [->|Hne].
      * rewrite Ho in Ho'. rewrite Hn' in Hn''.
        injection Ho' as <-. injection Hn'' as <-.
        split; [exact E|]. intros k Hk Hlt. exfalso.
        unfold projected in Hp. rewrite Hk in Hp.
        destruct (st_target st); [|contradiction]. lia.
      * apply Hn; [lia|assumption|assumption].
Qed.

(** The locals when [vecProject] leaves its loop. *)
Lemma vecProject_final (a : Vec2) (points : list Vec2) :
  projected sqrt_approx a points (List.length points - 1)
    (vecProject_loop sqrt_approx a points 0
       {| st_min := PInf; st_idx := None; st_target := None |})
  /\ nearest sqrt_approx a points (List.length points - 1)
       (vecProject_loop sqrt_approx a points 0
          {| st_min := PInf; st_idx := None; st_target := None |}).
Proof.
  apply (@vecProject_loop_invariant a points points 0).
  - intros j. reflexivity.
  - reflexivity.
  - intros j o n Hj. lia.
Qed.

Lemma segment_index (points : list Vec2) (j : nat) (n : Vec2) :
  nth_error points (S j) = Some n -> (j < List.length points - 1)%nat.
Proof.
  intros H. assert (S j < List.length points)%nat; [|lia].
  apply nth_error_Some. rewrite H. discriminate.
Qed.

(** X19. When [vecProject] returns an edge, its index is the index of the
    end point of a segment of the path (from 1 to the last index), its
    target is the point the function takes on that segment -- the start
    point, the end point or the orthogonal projection between them -- and
    its distance is the length from that target to the point projected, a
    number below [Infinity]. *)
Theorem vecProject_edge (a : Vec2) (points : list Vec2) (e : Edge) :
  vecProject sqrt_approx a points = Some e ->
  (1 <= index e < List.length points)%nat
  /\ exists o n,
       nth_error points (index e - 1) = Some o
       /\ nth_error points (index e) = Some n
       /\ target e = vecProject_point a o n
       /\ (target e = o \/ target e = n
           \/ exists proj,
                target e
                = (fst o + proj * fst (vecSubtract n o),
                   snd o + proj * snd (vecSubtract n o))%num)
       /\ distance e = vecLength sqrt_approx (target e) (Some a)
       /\ (distance e <? PInf)%num = true.
Proof.
  unfold vecProject. destruct (vecProject_final a points) as [Hp _].
  unfold projected in Hp.
  destruct (st_idx _) as [k|], (st_target _) as [p|]; try discriminate.
  intros [= <-]. cbn [index target distance].
  destruct Hp as (Hk & o & n & Ho & Hn & -> & Hmin & Hlt).
  split.
  - split; [lia|]. apply nth_error_Some. rewrite Hn. discriminate.
  - exists o, n. repeat split; try assumption.
    unfold vecProject_point.
    destruct (_ <? of_Z 0)%num; [auto|].
    destruct (_ >? of_Z 1)%num; [auto|]. right. right. eexists. reflexivity.
Qed.

(** X20. The edge [vecProject] returns is a nearest one: no segment of the
    path has a smaller distance, and no segment before it has a distance
    as small, so that among equally near segments the first is
    returned. *)
Theorem vecProject_nearest (a : Vec2) (points : list Vec2) (e : Edge)
  (j : nat) (o n : Vec2) :
  vecProject sqrt_approx a points = Some e ->
  nth_error points j = Some o -> nth_error points (S j) = Some n ->
  (vecProject_dist sqrt_approx a o n <? distance e)%num = false
  /\ ((S j < index e)%nat ->
      (vecProject_dist sqrt_approx a o n <=? distance e)%num = false).
Proof.
  unfold vecProject. destruct (vecProject_final a points) as [Hp Hn].
  unfold projected in Hp.
  destruct (st_idx _) as [k|] eqn:Ek, (st_target _) as [p|];
    try discriminate.
  intros [= <-] Ho Hn'. cbn [index distance].
  destruct (Hn j o n (segment_index _ _ Hn') Ho Hn') as [H1 H2].
  split; [exact H1|]. intros Hlt. apply (H2 k); [exact Ek|exact Hlt].
Qed.

(** X21. [vecProject] returns [null] exactly when no segment of the path
    has a distance below [Infinity]: so for a path of fewer than two
    points, and for a path of two identical points, for which the
    projection is [0 / 0]. *)
Theorem vecProject_null (a : Vec2) :
  (forall points,
      vecProject sqrt_approx a points = None <->
      forall j o n,
        nth_error points j = Some o -> nth_error points (S j) = Some n ->
        (vecProject_dist sqrt_approx a o n <? PInf)%num = false)
  /\ (forall points,
         (List.length points < 2)%nat ->
         vecProject sqrt_approx a points = None)
  /\ (forall x y px py : Q,
         a = (Fin x, Fin y) ->
         vecProject sqrt_approx a [(Fin px, Fin py); (Fin px, Fin py)]
         = None).
Proof.
  assert (Hiff : forall points,
             vecProject sqrt_approx a points = None <->
             forall j o n,
               nth_error points j = Some o ->
               nth_error points (S j) = Some n ->
               (vecProject_dist sqrt_approx a o n <? PInf)%num = false).
  { intros points. unfold vecProject.
    destruct (vecProject_final a points) as [Hp Hn].
    unfold projected in Hp. unfold nearest in Hn.
    destruct (st_idx _) as [k|], (st_target _) as [p|];
      try contradiction.
    - destruct Hp as (Hk & o & n & Ho & Hn' & _ & Hmin & Hlt). split.
      + discriminate.
      + intros H. exfalso.
        replace k with (S (k - 1)) in Hn' by lia.
        specialize (H _ _ _ Ho Hn'). rewrite <- Hmin in H. congruence.
    - split; [|reflexivity]. intros _ j o n Ho Hn'.
      rewrite <- Hp. apply (Hn j o n (segment_index _ _ Hn') Ho Hn'). }
  split; [exact Hiff|]. split.
  - intros points Hlen. apply Hiff. intros j o n Ho Hn.
    apply segment_index in Hn. lia.
  - intros x y px py ->. apply Hiff. intros j o n Ho Hn.
    destruct j as [|j]; [|destruct j; discriminate Hn].
    injection Ho as <-. injection Hn as <-.
    unfold vecProject_dist, vecProject_point, vecDot, vecSubtract, or_origin.
    cbn [fst snd num_sub].
    rewrite !(@Qred_zero (px - px)%Q), !(@Qred_zero (py - py)%Q) by ring.
    cbn [num_mul num_add num_sub of_Z].
    rewrite !(@Qred_zero (_ * 0)%Q) by ring.
    reflexivity.
Qed.

End VectorProperties.

(** ** Margins, tile by tile *)

Section MarginTiles.

Variable ln_approx : Q -> Q.
Variable pow_approx : Q -> Q -> Q.
Variable geoScaleToZoom : number -> number -> number.
Variable geoZoomToScale : number -> number -> number.
Variable Projection_invert : Projection -> Vec2 -> Vec2.

(** The descriptor of every column of every row that is not skipped is in
    the result of the loops. *)
Lemma getTiles_tiles_intro (projection : Projection) (this : Tiler)
  (rows cols : list number) (x y : number) :
  In y rows -> In x cols ->
  skipped pow_approx geoScaleToZoom this projection x y = false ->
  In (getTiles_tile pow_approx geoScaleToZoom geoZoomToScale
        Projection_invert this projection x y)
     (getTiles_loop pow_approx geoScaleToZoom geoZoomToScale
        Projection_invert this projection rows cols).
Proof.
  intros Hy Hx Hs.
  eapply Permutation_in.
  - rewrite getTiles_loop_enumeration. symmetry.
    apply filter_split_Permutation.
  - unfold enumeration. apply in_flat_map. exists y. split; [exact Hy|].
    apply in_map_iff. exists x. split; [reflexivity|].
    apply filter_In. split; [exact Hx|].
    rewrite Hs. reflexivity.
Qed.

(** X22. Widening an integer margin only adds tiles: with an integer zoom
    range up to 53 and an integer margin [m], every tile descriptor
    returned at the margin [m] is also returned, unchanged, at the margin
    [m + 1]. *)
Theorem getTiles_margin_keeps_tiles
  (projection : Projection) (this : Tiler) (min max m : Z)
  (r r' : TileResult) (t : Tile) :
  _zoomRange this = (of_Z min, of_Z max) -> min <= 53 -> max <= 53 ->
  fst (getTiles ln_approx pow_approx geoScaleToZoom geoZoomToScale
         Projection_invert projection
         (snd (margin (Some (of_Z m)) this))) = Ok r ->
  fst (getTiles ln_approx pow_approx geoScaleToZoom geoZoomToScale
         Projection_invert projection
         (snd (margin (Some (of_Z (m + 1))) this))) = Ok r' ->
  In t (tiles r) -> In t (tiles r').
Proof.
  intros Hrange _ _ H H' Ht.
  apply getTiles_Ok_inv in H, H'.
  destruct H as (rows & cols & Hrows & Hcols & Htiles).
  destruct H' as (rows' & cols' & Hrows' & Hcols' & Htiles').
  rewrite getTiles_rows_at_margin in Hrows, Hrows'.
  rewrite getTiles_cols_at_margin in Hcols, Hcols'.
  assert (Hb : getTiles_maxTile pow_approx geoScaleToZoom this projection
               = NaN
               \/ exists b,
                    tile_bound
                      (getTiles_maxTile pow_approx geoScaleToZoom this
                         projection) b).
  { destruct (@getTiles_maxTile_cases pow_approx geoScaleToZoom this
                projection min max Hrange) as [[_ E]|(b & E & _)];
      [left|right; exists b]; exact E. }
  assert (Hr : exists pre post, rows' = pre ++ rows ++ post).
  { destruct Hb as [Hb|(b & Hb)];
      [eapply axis_range_widen with (max := 0)
      |eapply axis_range_widen]; eauto. }
  assert (Hc : exists pre post, cols' = pre ++ cols ++ post).
  { destruct Hb as [Hb|(b & Hb)];
      [eapply axis_range_widen with (max := 0)
      |eapply axis_range_widen]; eauto. }
  destruct Hr as (pre & post & ->). destruct Hc as (cpre & cpost & ->).
  rewrite Htiles in Ht. apply getTiles_tiles_inv in Ht.
  destruct Ht as (x & y & Hy & Hx & Hs & ->).
  rewrite Htiles'.
  change (getTiles_tile pow_approx geoScaleToZoom geoZoomToScale
            Projection_invert (snd (margin (Some (of_Z m)) this))
            projection x y)
    with (getTiles_tile pow_approx geoScaleToZoom geoZoomToScale
            Projection_invert (snd (margin (Some (of_Z (m + 1))) this))
            projection x y).
  apply getTiles_tiles_intro.
  - apply in_or_app. right. apply in_or_app. left. exact Hy.
  - apply in_or_app. right. apply in_or_app. left. exact Hx.
  - exact Hs.
Qed.

End MarginTiles.


(** ** The further properties at work on concrete inputs *)

Import MoreExamples.

(** X1 at [clamp(30, 0, 24)], which is 24. *)
Lemma clamp_between_witness :
  (of_Z 0 <=? of_Z 24)%num = true
  /\ is_nan (of_Z 30) = false
  /\ clamp (of_Z 30) (of_Z 0) (of_Z 24) = of_Z 24
  /\ (of_Z 0 <=? clamp (of_Z 30) (of_Z 0) (of_Z 24))%num = true
  /\ (clamp (of_Z 30) (of_Z 0) (of_Z 24) <=? of_Z 24)%num = true.
Proof.
  split; [reflexivity|]. split; [reflexivity|]. split; [reflexivity|].
  destruct (@clamp_between (of_Z 30) (of_Z 0) (of_Z 24) eq_refl eq_refl)
    as (H1 & H2 & _).
  split; assumption.
Defined.

(** X3 with [range(0, 1)] and [range(2, 3)]. *)
Lemma range_adjacent_witness :
  exists l1 l2,
    range (of_Z 0) (of_Z 1) = Ok l1
    /\ range (of_Z (1 + 1)) (of_Z 3) = Ok l2
    /\ 3 - 0 + 1 < 2 ^ 32
    /\ safe_integer 0 /\ safe_integer 1 /\ safe_integer 3
    /\ range (of_Z 0) (of_Z 3) = Ok (l1 ++ l2).
Proof.
  eexists. eexists. split; [vm_compute; reflexivity|].
  split; [vm_compute; reflexivity|]. split; [lia|].
  split; [unfold safe_integer; lia|]. split; [unfold safe_integer; lia|].
  split; [unfold safe_integer; lia|].
  apply (@range_adjacent 0 1 3).
  - unfold safe_integer; lia.
  - unfold safe_integer; lia.
  - unfold safe_integer; lia.
  - vm_compute; reflexivity.
  - vm_compute; reflexivity.
  - lia.
Defined.

(** X4 with a margin of one tile at zoom 2: twelve tiles, all within
    [[0, 3]]. *)
Lemma getTiles_within_world_witness :
  exists r z,
    _zoomRange (tiler_with_margin 1) = (of_Z 0, of_Z 24)
    /\ _margin (tiler_with_margin 1) = of_Z 1
    /\ fst (Reference.getTiles partial_view (tiler_with_margin 1)) = Ok r
    /\ getTiles_z Reference.geoScaleToZoom (tiler_with_margin 1) partial_view
       = of_Z z
    /\ (forall t, In t (tiles r) ->
          exists x y,
            xyz t = (of_Z x, of_Z y, of_Z z)
            /\ 0 <= x <= 2 ^ z - 1 /\ 0 <= y <= 2 ^ z - 1).
Proof.
  eexists.
  destruct (@getTiles_within_world Reference.ln_approx Reference.pow_approx
              Reference.geoScaleToZoom Reference.geoZoomToScale
              Reference.Projection_invert partial_view (tiler_with_margin 1)
              0 24 1 _ eq_refl ltac:(lia) ltac:(lia) ltac:(lia) eq_refl
              ltac:(vm_compute; reflexivity))
    as (z & Hz & _ & _ & Hin & _).
  exists z. split; [reflexivity|]. split; [reflexivity|].
  split; [vm_compute; reflexivity|]. split; [exact Hz|exact Hin].
Defined.

(** X5 on the same call. *)
Lemma getTiles_NoDup_witness :
  exists r,
    fst (Reference.getTiles partial_view (tiler_with_margin 1)) = Ok r
    /\ NoDup (map xyz (tiles r)).
Proof.
  eexists. split; [vm_compute; reflexivity|].
  apply (@getTiles_NoDup Reference.ln_approx Reference.pow_approx
           Reference.geoScaleToZoom Reference.geoZoomToScale
           Reference.Projection_invert partial_view (tiler_with_margin 1)
           0 24 1).
  - reflexivity.
  - lia.
  - lia.
  - reflexivity.
  - vm_compute; reflexivity.
Defined.

(** X6 with the zoom range [2, 5] and the world in view at zoom 1: the
    tiles are at zoom 2. *)
Lemma getTiles_zoom_selected_witness :
  exists r,
    _zoomRange tiler_from_zoom_2 = (of_Z 2, of_Z 5)
    /\ fst (Reference.getTiles (world_projection 256 1) tiler_from_zoom_2)
       = Ok r
    /\ (Reference.geoScaleToZoom (scale (world_projection 256 1))
          (_tileSize tiler_from_zoom_2) <? of_Z 2)%num = true
    /\ List.length (tiles r) = 16%nat
    /\ forall t, In t (tiles r) -> snd (xyz t) = of_Z 2.
Proof.
  eexists. split; [reflexivity|]. split; [vm_compute; reflexivity|].
  split; [vm_compute; reflexivity|]. split; [reflexivity|].
  refine (proj1 (@getTiles_zoom_selected Reference.ln_approx
                   Reference.pow_approx Reference.geoScaleToZoom
                   Reference.geoZoomToScale Reference.Projection_invert
                   (world_projection 256 1) tiler_from_zoom_2 2 5 _ _ _ _)
            _).
  - reflexivity.
  - lia.
  - vm_compute; reflexivity.
  - vm_compute; reflexivity.
Defined.

(** X7 on a projection with a negative scale, whose zoom is NaN. *)
Lemma getTiles_NaN_raises_witness :
  Reference.geoScaleToZoom (scale negative_scale) (_tileSize new_Tiler) = NaN
  /\ fst (Reference.getTiles negative_scale new_Tiler) = Throw RangeError.
Proof.
  assert (H : Reference.geoScaleToZoom (scale negative_scale)
                (_tileSize new_Tiler) = NaN) by (vm_compute; reflexivity).
  split; [exact H|].
  apply (@getTiles_NaN_raises Reference.ln_approx Reference.pow_approx
           Reference.geoScaleToZoom Reference.geoZoomToScale
           Reference.Projection_invert negative_scale new_Tiler).
  left. exact H.
Defined.

(** X8 around Null Island at zoom 7: sixteen tiles without the flag,
    twelve of them with it. *)
Lemma getTiles_skip_filters_witness :
  exists r r',
    fst (Reference.getTiles null_island_view
           (snd (skipNullIsland (Some false) new_Tiler))) = Ok r
    /\ fst (Reference.getTiles null_island_view
              (snd (skipNullIsland (Some true) new_Tiler))) = Ok r'
    /\ List.length (tiles r) = 16%nat
    /\ tiles r'
       = filter
           (fun t =>
              negb (Reference.isNearNullIsland (fst (fst (xyz t)))
                      (snd (fst (xyz t))) (snd (xyz t))))
           (tiles r).
Proof.
  eexists.
  destruct (@getTiles_skip_filters Reference.ln_approx Reference.pow_approx
              Reference.geoScaleToZoom Reference.geoZoomToScale
              Reference.Projection_invert null_island_view new_Tiler
              _ ltac:(vm_compute; reflexivity))
    as (r' & Hr' & Hf).
  exists r'. split; [vm_compute; reflexivity|]. split; [exact Hr'|].
  split; [reflexivity|exact Hf].
Defined.

(** X9 at zoom 1 with the whole world in view: four tiles, the first
    returned with the id [1,1,1], no two with the same id. *)
Lemma getTiles_ids_witness :
  exists r,
    fst (Reference.getTiles (world_projection 256 1) new_Tiler) = Ok r
    /\ map id (tiles r)
       = ["1,1,1"; "0,1,1"; "1,0,1"; "0,0,1"]%string
    /\ forall t t', In t (tiles r) -> In t' (tiles r) ->
                    id t = id t' -> t = t'.
Proof.
  eexists. split; [vm_compute; reflexivity|]. split; [reflexivity|].
  apply (proj2 (@getTiles_ids Reference.ln_approx Reference.pow_approx
                  Reference.geoScaleToZoom Reference.geoZoomToScale
                  Reference.Projection_invert (world_projection 256 1)
                  new_Tiler 0 24 0 _ eq_refl ltac:(lia) ltac:(lia)
                  ltac:(lia) eq_refl ltac:(vm_compute; reflexivity))).
Defined.

(** X10 with a margin of one tile: columns 0 to 3 of rows 0 to 2. *)
Lemma getTiles_count_witness :
  exists r,
    _skipNullIsland (tiler_with_margin 1) = false
    /\ getTiles_colBounds Reference.ln_approx Reference.pow_approx
         Reference.geoScaleToZoom (tiler_with_margin 1) partial_view
       = (of_Z 0, of_Z 3)
    /\ getTiles_rowBounds Reference.ln_approx Reference.pow_approx
         Reference.geoScaleToZoom (tiler_with_margin 1) partial_view
       = (of_Z 0, of_Z 2)
    /\ fst (Reference.getTiles partial_view (tiler_with_margin 1)) = Ok r
    /\ Z.of_nat (List.length (tiles r)) = (3 - 0 + 1) * (2 - 0 + 1).
Proof.
  eexists. split; [reflexivity|]. split; [vm_compute; reflexivity|].
  split; [vm_compute; reflexivity|]. split; [vm_compute; reflexivity|].
  apply (@getTiles_count Reference.ln_approx Reference.pow_approx
           Reference.geoScaleToZoom Reference.geoZoomToScale
           Reference.Projection_invert partial_view (tiler_with_margin 1)
           _ 0 3 0 2).
  - reflexivity.
  - vm_compute; reflexivity.
  - vm_compute; reflexivity.
  - unfold safe_integer; lia.
  - unfold safe_integer; lia.
  - unfold safe_integer; lia.
  - unfold safe_integer; lia.
  - vm_compute; reflexivity.
Defined.

(** X11 for the tile (63, 64, 7) and its child (127, 128, 8). *)
Lemma isNearNullIsland_children_witness :
  7 <= 7 <= 52 /\ 0 <= 1 <= 1 /\ 0 <= 0 <= 1
  /\ Reference.isNearNullIsland (of_Z (2 * 63 + 1)) (of_Z (2 * 64 + 0))
       (of_Z (7 + 1))
     = Reference.isNearNullIsland (of_Z 63) (of_Z 64) (of_Z 7).
Proof.
  split; [lia|]. split; [lia|]. split; [lia|].
  apply (@isNearNullIsland_children Reference.pow_approx 63 64 7 1 0); lia.
Defined.

(** X19 and X20 on a path with a right angle and a point at distance 1
    from both of its segments: the first segment is returned. *)
Lemma vecProject_edge_witness :
  exists e,
    vecProject sqrt_approx corner_point corner_path = Some e
    /\ index e = 1%nat
    /\ target e = (of_Z 1, of_Z 0)
    /\ distance e = of_Z 1
    /\ (1 <= index e < List.length corner_path)%nat
    /\ distance e = vecLength sqrt_approx (target e) (Some corner_point).
Proof.
  eexists. split; [vm_compute; reflexivity|].
  split; [reflexivity|]. split; [reflexivity|]. split; [reflexivity|].
  destruct (@vecProject_edge sqrt_approx corner_point corner_path _
              ltac:(vm_compute; reflexivity))
    as (H1 & o & n & _ & _ & _ & _ & H2 & _).
  split; [exact H1|exact H2].
Defined.

Lemma vecProject_nearest_witness :
  exists e,
    vecProject sqrt_approx corner_point corner_path = Some e
    /\ nth_error corner_path 1 = Some (of_Z 2, of_Z 0)
    /\ nth_error corner_path 2 = Some (of_Z 2, of_Z 2)
    /\ vecProject_dist sqrt_approx corner_point (of_Z 2, of_Z 0)
         (of_Z 2, of_Z 2) = of_Z 1
    /\ (vecProject_dist sqrt_approx corner_point (of_Z 2, of_Z 0)
          (of_Z 2, of_Z 2) <? distance e)%num = false.
Proof.
  eexists. split; [vm_compute; reflexivity|].
  split; [reflexivity|]. split; [reflexivity|].
  split; [vm_compute; reflexivity|].
  apply (@vecProject_nearest sqrt_approx corner_point corner_path _ 1
           (of_Z 2, of_Z 0) (of_Z 2, of_Z 2)
           ltac:(vm_compute; reflexivity) eq_refl eq_refl).
Defined.

(** X22 from no margin to a margin of one tile around two tiles in view:
    both are still returned. *)
Lemma getTiles_margin_keeps_tiles_witness :
  exists r r',
    _zoomRange new_Tiler = (of_Z 0, of_Z 24)
    /\ fst (Reference.getTiles Examples.partial_view
              (Examples.tiler_with_margin 0)) = Ok r
    /\ fst (Reference.getTiles Examples.partial_view
              (Examples.tiler_with_margin (0 + 1))) = Ok r'
    /\ List.length (tiles r) = 2%nat
    /\ forall t, In t (tiles r) -> In t (tiles r').
Proof.
  eexists. eexists. split; [reflexivity|].
  split; [vm_compute; reflexivity|]. split; [vm_compute; reflexivity|].
  split; [reflexivity|]. intros t.
  apply (@getTiles_margin_keeps_tiles Reference.ln_approx
           Reference.pow_approx Reference.geoScaleToZoom
           Reference.geoZoomToScale Reference.Projection_invert
           Examples.partial_view new_Tiler 0 24 0).
  - reflexivity.
  - lia.
  - lia.
  - vm_compute; reflexivity.
  - vm_compute; reflexivity.
Defined.

(** X23 with [zoomRange(3)] and the world in view at zoom 1: the 64 tiles
    of zoom 3. *)
Lemma getTiles_single_zoom_witness :
  exists r,
    fst (Reference.getTiles (world_projection 256 1)
           (snd (zoomRange (Some (of_Z 3)) None new_Tiler))) = Ok r
    /\ List.length (tiles r) = 64%nat
    /\ forall t, In t (tiles r) -> snd (xyz t) = of_Z 3.
Proof.
  eexists. split; [vm_compute; reflexivity|]. split; [reflexivity|].
  apply (@getTiles_single_zoom Reference.ln_approx Reference.pow_approx
           Reference.geoScaleToZoom Reference.geoZoomToScale
           Reference.Projection_invert (world_projection 256 1) new_Tiler 3).
  vm_compute; reflexivity.
Defined.

(** X2 on [range(2, 5)], four numbers, and on [range(2, 0)], which
    raises. *)
Lemma range_integers_witness :
  safe_integer 0 /\ safe_integer 2 /\ safe_integer 5
  /\ (exists l,
         range (of_Z 2) (of_Z 5) = Ok l
         /\ List.length l = 4%nat
         /\ forall n, In (of_Z n) l <-> 2 <= n <= 5)
  /\ range (of_Z 2) (of_Z 0) = Throw RangeError.
Proof.
  assert (S0 : safe_integer 0) by (unfold safe_integer; lia).
  assert (S2 : safe_integer 2) by (unfold safe_integer; lia).
  assert (S5 : safe_integer 5) by (unfold safe_integer; lia).
  split; [exact S0|]. split; [exact S2|]. split; [exact S5|]. split.
  - destruct (proj1 (@range_integers 2 5 S2 S5))
      as (l & H1 & H2 & _ & H4 & _); [lia|lia|].
    exists l. split; [exact H1|]. split; [exact H2|exact H4].
  - apply (proj2 (@range_integers 2 0 S2 S0)). lia.
Defined.

(** X14 on a vector and itself, with the thresholds 0 and -1. *)
Lemma vecEqual_properties_witness :
  vecEqual (of_Z 1, of_Z 2) (of_Z 1, of_Z 2) (Some (of_Z 0)) = true
  /\ vecEqual (of_Z 1, of_Z 2) (of_Z 1, of_Z 2) (Some (of_Z (-1))) = false.
Proof.
  destruct vecEqual_properties as (_ & H2 & _ & H4). split.
  - rewrite H2; [reflexivity|]. right. left. reflexivity.
  - apply H4. reflexivity.
Defined.

(** X18 on the zero vector. *)
Lemma zero_length_witness :
  vecNormalize sqrt_approx (of_Z 0, of_Z 0) = (of_Z 0, of_Z 0).
Proof.
  apply (proj1 (@zero_length sqrt_approx 0 0)); reflexivity.
Defined.

(** X21 on a path of one point and on a path of twice the same point. *)
Lemma vecProject_null_witness :
  vecProject sqrt_approx corner_point [corner_point] = None
  /\ vecProject sqrt_approx corner_point [(of_Z 0, of_Z 0); (of_Z 0, of_Z 0)]
     = None.
Proof.
  split.
  - apply (proj1 (proj2 (@vecProject_null sqrt_approx corner_point))).
    simpl. lia.
  - apply (proj2 (proj2 (@vecProject_null sqrt_approx corner_point))
             1%Q 1%Q 0%Q 0%Q).
    reflexivity.
Defined.
